(** * The Bandcamp extractor plugin: a shallow embedding and its properties

    The development follows [packages/bandcamp/src/index.ts]: the JavaScript
    values the plugin handles, the string primitives it calls, the page
    scraping functions, the entity constructors and the top-level operations
    [validate], [resolve], [searchSongs], [searchAlbums], [getStreamURL],
    [searchSong] and [getRelatedSongs]. *)

From Stdlib Require Import Ascii String ZArith QArith Lia.
From stdpp Require Import base option list strings pretty gmap.

Local Close Scope Q_scope.
Local Open Scope string_scope.
Local Open Scope list_scope.
Set Warnings "-register-all".
Set Default Proof Using "Type".
#[local] Arguments String.append !s1 s2 : simpl nomatch.

(** ** JavaScript values *)

(** A JavaScript number is an IEEE double; every finite double is a rational,
    and the plugin only compares numbers, tests them for zero and for being
    integers, so a finite number is kept as the rational it denotes. *)
Inductive number :=
| Finite (q : Q)
| NaN
| PosInf
| NegInf.

(** The values that reach the plugin: arguments handed in by the caller and
    documents produced by [JSON.parse]. *)
Inductive jsval :=
| JUndefined
| JNull
| JBool (b : bool)
| JNum (n : number)
| JStr (s : string)
| JArr (items : list jsval)
| JObj (props : gmap string jsval).

#[global] Instance jsval_inhabited : Inhabited jsval := populate JUndefined.

(** Thrown values. Everything the plugin throws or catches is an [Error]
    instance: the host's [DisTuneError] (a code and the constructor's further
    arguments), a plain [Error], or one of the runtime's own errors. *)
Inductive exn :=
| DisTuneError (code : string) (args : list jsval)
| Error (message : string)
| TypeError (message : string)
| SyntaxError (message : string).

Inductive Result (A : Type) :=
| Ok (a : A)
| Throw (e : exn).
Arguments Ok {A} a.
Arguments Throw {A} e.

#[global] Instance Result_ret : MRet Result := fun A a => Ok a.
#[global] Instance Result_bind : MBind Result := fun A B f r =>
  match r with
  | Ok a => f a
  | Throw e => Throw e
  end.

Definition of_int (z : Z) : jsval := JNum (Finite (inject_Z z)).

Definition is_zero (n : number) : bool :=
  match n with
  | Finite q => (Qnum q =? 0)%Z
  | _ => false
  end.

(** [Boolean(x)]: the falsy values are [undefined], [null], [false], [0],
    [NaN] and the empty string. *)
Definition truthy (v : jsval) : bool :=
  match v with
  | JUndefined | JNull => false
  | JBool b => b
  | JNum NaN => false
  | JNum n => negb (is_zero n)
  | JStr EmptyString => false
  | JStr _ => true
  | JArr _ | JObj _ => true
  end.

(** [isTruthy] of the source, at the type of the fan-out results: a slot
    holds [null] or an entity object, and every object is truthy. *)
Definition isTruthy {A} (x : option A) : bool :=
  match x with
  | Some _ => true
  | None => false
  end.

(** [xs.filter(isTruthy) as Entity[]] *)
Fixpoint filter_isTruthy {A} (xs : list (option A)) : list A :=
  match xs with
  | [] => []
  | x :: rest =>
      match x with
      | Some entity => if isTruthy x then entity :: filter_isTruthy rest else filter_isTruthy rest
      | None => filter_isTruthy rest
      end
  end.

Definition nullish (v : jsval) : bool :=
  match v with
  | JUndefined | JNull => true
  | _ => false
  end.

(** [a || b] on values. *)
Definition js_or (a b : jsval) : jsval := if truthy a then a else b.

Definition number_eq (a b : number) : bool :=
  match a, b with
  | Finite p, Finite q => Qeq_bool p q
  | PosInf, PosInf | NegInf, NegInf => true
  | _, _ => false
  end.

(** [a === b] for the primitive values; two values of different types are
    never strictly equal. Arrays and objects are compared by identity in
    JavaScript; the ones compared here come out of distinct [JSON.parse]
    nodes or literals, so they are never identical. *)
Definition strict_eq (a b : jsval) : bool :=
  match a, b with
  | JUndefined, JUndefined => true
  | JNull, JNull => true
  | JBool x, JBool y => Bool.eqb x y
  | JNum x, JNum y => number_eq x y
  | JStr x, JStr y => String.eqb x y
  | _, _ => false
  end.

(** [typeof v === 'number'], [typeof v === 'string']. *)
Definition is_number (v : jsval) : bool :=
  match v with JNum _ => true | _ => false end.
Definition is_string (v : jsval) : bool :=
  match v with JStr _ => true | _ => false end.

(** [n < 1] *)
Definition lt_one (n : number) : bool :=
  match n with
  | Finite q => (Qnum q <? Z.pos (Qden q))%Z
  | NegInf => true
  | NaN | PosInf => false
  end.

(** [Number.isInteger(n)] *)
Definition isInteger (n : number) : bool :=
  match n with
  | Finite q => (Qnum q mod Z.pos (Qden q) =? 0)%Z
  | _ => false
  end.

(** The integer a finite integral number denotes, as a list length. *)
Definition to_count (n : number) : nat :=
  match n with
  | Finite q => Z.to_nat (Qnum q / Z.pos (Qden q))
  | _ => 0
  end.

(** [v.k] for the fixed property names the plugin reads. Reading a property
    of [undefined] or [null] throws; arrays and strings answer [length];
    every other primitive answers [undefined]. *)
Definition getProp (v : jsval) (k : string) : Result jsval :=
  match v with
  | JUndefined => Throw (TypeError ("Cannot read properties of undefined (reading '" +:+ k +:+ "')"))
  | JNull => Throw (TypeError ("Cannot read properties of null (reading '" +:+ k +:+ "')"))
  | JObj o => Ok (default JUndefined (o !! k))
  | JArr l => Ok (if String.eqb k "length" then of_int (Z.of_nat (length l)) else JUndefined)
  | JStr s => Ok (if String.eqb k "length" then of_int (Z.of_nat (String.length s)) else JUndefined)
  | JBool _ | JNum _ => Ok JUndefined
  end.

(** [v?.k] *)
Definition getPropOpt (v : jsval) (k : string) : jsval :=
  match v with
  | JObj o => default JUndefined (o !! k)
  | JArr l => if String.eqb k "length" then of_int (Z.of_nat (length l)) else JUndefined
  | JStr s => if String.eqb k "length" then of_int (Z.of_nat (String.length s)) else JUndefined
  | _ => JUndefined
  end.

(** [v?.[0]] *)
Definition firstOpt (v : jsval) : jsval :=
  match v with
  | JArr l => default JUndefined (head l)
  | JObj o => default JUndefined (o !! "0")
  | JStr (String c _) => JStr (String c EmptyString)
  | _ => JUndefined
  end.

(** ** String primitives *)

Definition dquote : string := String "034"%char EmptyString.

(** [s.startsWith(p)] *)
Definition startsWith (s p : string) : bool := String.prefix p s.

(** [s.endsWith(suffix)] *)
Fixpoint endsWith (s suffix : string) : bool :=
  String.eqb s suffix ||
  match s with
  | EmptyString => false
  | String _ s' => endsWith s' suffix
  end.

(** [s.includes(sub)] *)
Fixpoint includes (s sub : string) : bool :=
  String.prefix sub s ||
  match s with
  | EmptyString => false
  | String _ s' => includes s' sub
  end.

(** [s.split(sep)[0]] for a non-empty separator: the text before the first
    occurrence of [sep], or all of [s] when there is none. *)
Fixpoint split_first (s sep : string) : string :=
  if String.prefix sep s then EmptyString
  else match s with
       | EmptyString => EmptyString
       | String c s' => String c (split_first s' sep)
       end.

(** [s.replace(/pat/g, rep)] for a literal non-empty pattern: occurrences
    are found left to right and do not overlap; [skip] counts the characters
    of a match still to be passed over. *)
Fixpoint replace_from (skip : nat) (pat rep s : string) : string :=
  match s with
  | EmptyString => EmptyString
  | String c s' =>
      match skip with
      | S k => replace_from k pat rep s'
      | O =>
          if String.prefix pat s
          then rep +:+ replace_from (String.length pat - 1) pat rep s'
          else String c (replace_from 0 pat rep s')
      end
  end.

Definition replaceAll (pat rep s : string) : string := replace_from 0 pat rep s.

Fixpoint string_drop (n : nat) (s : string) : string :=
  match n, s with
  | S k, String _ s' => string_drop k s'
  | _, _ => s
  end.

(** The longest run of characters other than the double quote at the front
    of [s], and what follows it. *)
Fixpoint span_unquoted (s : string) : string * string :=
  match s with
  | EmptyString => (EmptyString, EmptyString)
  | String c s' =>
      if Ascii.eqb c "034"%char then (EmptyString, s)
      else let '(run, rest) := span_unquoted s' in (String c run, rest)
  end.

(** A match, anchored at the front of [s], of the regular expression made of
    the literal [lit], a capture group of one or more characters other than
    the double quote, and a closing double quote. The greedy run is the only
    candidate, because a shorter run is followed by a character of the run
    and not by a quote. *)
Definition match_here (lit s : string) : option string :=
  if String.prefix lit s then
    match span_unquoted (string_drop (String.length lit) s) with
    | (String c run, String _ _) => Some (String c run)
    | _ => None
    end
  else None.

(** [s.match] on that regular expression: the capture group of the leftmost
    match, or nothing. *)
Fixpoint match_attr (lit s : string) : option string :=
  match match_here lit s with
  | Some captured => Some captured
  | None =>
      match s with
      | EmptyString => None
      | String _ s' => match_attr lit s'
      end
  end.

(** The entity decoding written out three times in the source
    ([parseTrackPage], [parseAlbumPage], [getRelatedSongs]); the five
    replacements run in this order. *)
Definition decodeEntities (s : string) : string :=
  replaceAll "&#39;" "'"
    (replaceAll "&gt;" ">"
      (replaceAll "&lt;" "<"
        (replaceAll "&amp;" "&"
          (replaceAll "&quot;" dquote s)))).

(** ** The runtime the plugin runs on *)

Record URL := { hostname : string; pathname : string }.

(** What the plugin takes from the JavaScript runtime and from the host
    framework, and what this development does not look inside. *)
Class Platform := {
  (** [new URL(s)]; [None] when the constructor throws *)
  URL_parse : string -> option URL;
  (** [JSON.parse(s)]; [None] when it throws a [SyntaxError] *)
  JSON_parse : string -> option jsval;
  (** [String(v)] for a value that is not already a string *)
  toString : jsval -> string;
  (** the [message] a [DisTuneError] computes from its code and arguments *)
  DisTuneError_message : string -> list jsval -> string
}.

Inductive Request :=
| SearchRequest (search_text search_filter : string)
| PageRequest (url : jsval).

Record Response := {
  resp_ok : bool;
  resp_status : Z;
  resp_statusText : string;
  resp_body : string
}.

Inductive NetOutcome :=
| Fulfilled (r : Response)
| Rejected (e : exn).

(** The network answers the [n]-th request of a run: any assignment of
    outcomes to the requests the plugin issues is such a function. *)
Definition Network := nat -> Request -> NetOutcome.

Inductive LogEntry :=
| LogError (label : string) (e : exn)
| LogValue (label : string) (v : jsval).

(** What a call leaves behind: the requests it sent, oldest first, and the
    lines it wrote with [console.error]. *)
Record World := mkWorld {
  requests : list Request;
  console : list LogEntry
}.

(** A computation that only writes to the console. *)
Definition Con (A : Type) : Type := list LogEntry * Result A.

#[global] Instance Con_ret : MRet Con := fun A a => ([], Ok a).
#[global] Instance Con_bind : MBind Con := fun A B f c =>
  match c with
  | (out, Ok a) => let '(out', r) := f a in (out ++ out', r)
  | (out, Throw e) => (out, Throw e)
  end.

Definition pureC {A} (r : Result A) : Con A := ([], r).
Definition console_error {A} (entry : LogEntry) (r : Result A) : Con A := ([entry], r).

(** An asynchronous operation: it may send requests, write to the console
    and throw. *)
Definition M (A : Type) : Type := World -> Result A * World.

#[global] Instance M_ret : MRet M := fun A a w => (Ok a, w).
#[global] Instance M_bind : MBind M := fun A B f m w =>
  match m w with
  | (Ok a, w') => f a w'
  | (Throw e, w') => (Throw e, w')
  end.

Definition liftR {A} (r : Result A) : M A := fun w => (r, w).
Definition liftC {A} (c : Con A) : M A := fun w =>
  (c.2, {| requests := requests w; console := console w ++ c.1 |}).
Definition throw {A} (e : exn) : M A := liftR (Throw e).

(** [try { body } catch (error) { handler(error) }] *)
Definition try_catch {A} (body : M A) (handler : exn -> M A) : M A := fun w =>
  match body w with
  | (Ok a, w') => (Ok a, w')
  | (Throw e, w') => handler e w'
  end.

(** The callbacks of the search fan-out: a promise that is already fulfilled
    when its callback returns, or one that waits for a response and then
    runs the rest of the callback. *)
Inductive Task (A : Type) :=
| Settled (a : A)
| Awaiting (k : Con A).
Arguments Settled {A} a.
Arguments Awaiting {A} k.

Definition run_task {A} (t : Task A) : Con A :=
  match t with
  | Settled a => ([], Ok a)
  | Awaiting k => k
  end.

(** The state of one [Promise.all]: the result array it fills by index, the
    indices whose promise has settled, and the first rejection. *)
Record Join (A : Type) := mkJoin {
  values : list A;
  settled : gset nat;
  rejection : option exn
}.
Arguments mkJoin {A}.
Arguments values {A}.
Arguments settled {A}.
Arguments rejection {A}.

(** Promise [i] settles: what its continuation writes goes to the console,
    its value goes to slot [i]. A promise settles once. *)
Definition settle {A} (tasks : list (Task A)) (st : Join A * list LogEntry) (i : nat)
  : Join A * list LogEntry :=
  if decide (i ∈ settled st.1) then st
  else match tasks !! i with
       | None => st
       | Some t =>
           let '(out, r) := run_task t in
           (match r with
            | Ok a => mkJoin (<[i := a]> (values st.1)) ({[i]} ∪ settled st.1) (rejection st.1)
            | Throw e => mkJoin (values st.1) ({[i]} ∪ settled st.1)
                           (Some (default e (rejection st.1)))
            end, st.2 ++ out)
       end.

(** [await Promise.all(tasks)]. The promises settle in the order [sched]
    names them; those it does not name settle afterwards, in index order.
    The result is the array of values by index, or the first rejection. *)
Definition promise_all {A} `{Inhabited A} (sched : list nat) (tasks : list (Task A)) : M (list A) :=
  fun w =>
    let n := length tasks in
    let '(j, out) := foldl (settle tasks) (mkJoin (replicate n inhabitant) ∅ None, [])
                       (sched ++ seq 0 n) in
    (match rejection j with
     | Some e => Throw e
     | None => Ok (values j)
     end,
     {| requests := requests w; console := console w ++ out |}).

(** ** Entities *)

(** [interface BandcampTrackInfo]. The fields are filled from an untyped
    [JSON.parse] result, so each holds whatever value the page carried. *)
Record BandcampTrackInfo := {
  ti_id : jsval;
  ti_title : jsval;
  ti_artist : jsval;
  ti_album : jsval;
  ti_duration : jsval;
  ti_url : jsval;
  ti_thumbnail : jsval;
  ti_streamUrl : jsval;
  ti_trackNumber : jsval
}.

(** [class BandcampSong extends Song]: the fields handed to the host's
    [Song] constructor, which is taken to store them, and the two the
    subclass adds. *)
Record BandcampSong := {
  song_source : string;
  song_id : jsval;
  song_name : jsval;
  song_url : jsval;
  song_thumbnail : jsval;
  song_duration : jsval;
  song_uploader_name : jsval;
  song_uploader_url : string;
  song_options : jsval;
  song_streamUrl : jsval;
  song_trackNumber : jsval
}.

(** [interface BandcampAlbumInfo] *)
Record BandcampAlbumInfo := {
  ai_id : jsval;
  ai_title : jsval;
  ai_artist : jsval;
  ai_url : jsval;
  ai_thumbnail : jsval;
  ai_tracks : list BandcampTrackInfo
}.

(** The host's [Album], also the shape of [BandcampAlbum]. Like [Song],
    the host's constructor is taken to store what it is given. *)
Record Album := {
  album_source : string;
  album_id : jsval;
  album_name : jsval;
  album_artist : jsval;
  album_url : jsval;
  album_thumbnail : jsval;
  album_songs : list BandcampSong;
  album_options : jsval
}.

Inductive Resolved :=
| ResolvedSong (s : BandcampSong)
| ResolvedAlbum (a : Album).

Definition has_scheme (s : string) : bool :=
  startsWith s "http://" || startsWith s "https://".

(** [v.split(sep)[0]] on a value: only strings have [split]. *)
Definition js_split_first (v : jsval) (sep : string) : Result string :=
  match v with
  | JStr s => Ok (split_first s sep)
  | JUndefined | JNull => Throw (TypeError "Cannot read properties of undefined (reading 'split')")
  | _ => Throw (TypeError "split is not a function")
  end.

(** The first lines of the [BandcampSong] constructor: a stream URL that is
    truthy and has no scheme gets [https:] in front. *)
Definition finalStreamUrl (v : jsval) : Result jsval :=
  if truthy v then
    match v with
    | JStr s => Ok (JStr (if has_scheme s then s else "https:" +:+ s))
    | _ => Throw (TypeError "finalStreamUrl.startsWith is not a function")
    end
  else Ok v.

(** [new BandcampSong(plugin, info, options)] *)
Definition newBandcampSong (info : BandcampTrackInfo) (options : jsval) : Result BandcampSong :=
  stream ← finalStreamUrl (ti_streamUrl info);
  beforeTrack ← js_split_first (ti_url info) "/track/";
  uploaderUrl ← match beforeTrack with
                | EmptyString => js_split_first (ti_url info) "/album/"
                | _ => Ok beforeTrack
                end;
  Ok {| song_source := "bandcamp";
        song_id := ti_id info;
        song_name := ti_title info;
        song_url := ti_url info;
        song_thumbnail := ti_thumbnail info;
        song_duration := ti_duration info;
        song_uploader_name := ti_artist info;
        song_uploader_url := uploaderUrl;
        song_options := options;
        song_streamUrl := stream;
        song_trackNumber := ti_trackNumber info |}.

(** [new BandcampAlbum(plugin, info, options)] *)
Definition newBandcampAlbum (info : BandcampAlbumInfo) (options : jsval) : Result Album :=
  songs ← mapM (fun track => newBandcampSong track options) (ai_tracks info);
  Ok {| album_source := "bandcamp";
        album_id := ai_id info;
        album_name := ai_title info;
        album_artist := ai_artist info;
        album_url := ai_url info;
        album_thumbnail := ai_thumbnail info;
        album_songs := songs;
        album_options := options |}.

(** [array.filter(p)] for a predicate that may throw. *)
Fixpoint filterR {A} (p : A -> Result bool) (l : list A) : Result (list A) :=
  match l with
  | [] => Ok []
  | x :: l' =>
      keep ← p x;
      rest ← filterR p l';
      Ok (if keep : bool then x :: rest else rest)
  end.

(** The receiver of [.filter]: only arrays have the method. *)
Definition as_array (v : jsval) : Result (list jsval) :=
  match v with
  | JArr l => Ok l
  | JUndefined | JNull => Throw (TypeError "Cannot read properties of undefined (reading 'filter')")
  | _ => Throw (TypeError "filter is not a function")
  end.

(** A value whose conversion to a string throws. The conversion calls the
    value's [toString]. A document from [JSON.parse] holds no function, so
    an own [toString] member of an object is never callable, and
    [Object.prototype.valueOf], tried next, gives back the object: a
    [TypeError]. An array has the method of [Array.prototype], which joins
    the conversions of its items, [null] and [undefined] as the empty
    text, and so throws when the conversion of an item does. *)
Fixpoint unprintable (v : jsval) : bool :=
  match v with
  | JObj o => bool_decide (is_Some (o !! "toString"))
  | JArr l => existsb unprintable l
  | _ => false
  end.

(** [x?.toString()]: the call reads [toString] off the value; on an object
    with a member of that name it finds the member, which is no function. *)
Definition toStringOpt `{Platform} (v : jsval) : Result jsval :=
  match v with
  | JUndefined | JNull => Ok JUndefined
  | JStr s => Ok (JStr s)
  | JObj _ =>
      if unprintable v then Throw (TypeError "toString is not a function")
      else Ok (JStr (toString v))
  | _ =>
      if unprintable v then Throw (TypeError "Cannot convert object to primitive value")
      else Ok (JStr (toString v))
  end.

(** A value spliced into a template literal. *)
Definition interpolate `{Platform} (v : jsval) : Result string :=
  match v with
  | JStr s => Ok s
  | _ =>
      if unprintable v then Throw (TypeError "Cannot convert object to primitive value")
      else Ok (toString v)
  end.

(** [error instanceof Error ? error.message : String(error)]; every thrown
    value here is an [Error], so both catch clauses read [message]. *)
Definition message `{Platform} (e : exn) : string :=
  match e with
  | DisTuneError code args => DisTuneError_message code args
  | Error m | TypeError m | SyntaxError m => m
  end.

Definition INVALID_TYPE (expected : string) (value : jsval) (name : string) : exn :=
  DisTuneError "INVALID_TYPE" [JStr expected; value; JStr name].

(** [t.file?.['mp3-128']] *)
Definition mp3_128_of (t : jsval) : Result jsval :=
  file ← getProp t "file";
  Ok (getPropOpt file "mp3-128").

Definition tralbum_attr : string := "data-tralbum=" +:+ dquote.
Definition og_site_name_attr : string :=
  "<meta property=" +:+ dquote +:+ "og:site_name" +:+ dquote +:+ " content=" +:+ dquote.
Definition og_image_attr : string :=
  "<meta property=" +:+ dquote +:+ "og:image" +:+ dquote +:+ " content=" +:+ dquote.

Definition extractArtistFromMeta (html : string) : string :=
  match match_attr og_site_name_attr html with
  | Some name => name
  | None => "Unknown Artist"
  end.

Definition extractThumbnailFromMeta (html : string) : jsval :=
  match match_attr og_image_attr html with
  | Some image => JStr image
  | None => JUndefined
  end.

(** ** The plugin *)

Section Plugin.
Context `{Platform}.

(** [JSON.parse(text)] *)
Definition parse_json (text : string) : Result jsval :=
  match JSON_parse text with
  | Some v => Ok v
  | None => Throw (SyntaxError "Unexpected token in JSON")
  end.

(** [validate(url)] *)
Definition validate (url : jsval) : bool :=
  match url with
  | JStr s =>
      match URL_parse s with
      | Some parsed =>
          endsWith (hostname parsed) ".bandcamp.com" &&
          (includes (pathname parsed) "/track/" || includes (pathname parsed) "/album/")
      | None => false
      end
  | _ => false
  end.

(** [parseTrackPage(html, url, options)] *)
Definition parseTrackPage (html : string) (url options : jsval) : Con BandcampSong :=
  match match_attr tralbum_attr html with
  | None => pureC (Throw (Error "Could not find track data on page"))
  | Some blob =>
      tralbumData ← pureC (parse_json (decodeEntities blob));
      trackinfo ← pureC (getProp tralbumData "trackinfo");
      let first := firstOpt trackinfo in
      let mp3_128 := getPropOpt (getPropOpt first "file") "mp3-128" in
      if negb (truthy mp3_128) then
        console_error (LogValue "Available track info:" first)
          (Throw (Error "Could not find MP3 stream URL"))
      else
        pureC (
          let trackInfo := first in
          recordArtist ← getProp tralbumData "artist";
          let artist := js_or recordArtist (JStr (extractArtistFromMeta html)) in
          artFullsizeUrl ← getProp tralbumData "artFullsizeUrl";
          artThumbURL ← getProp tralbumData "artThumbURL";
          let thumbnail :=
            js_or (js_or artFullsizeUrl artThumbURL) (extractThumbnailFromMeta html) in
          track_id ← getProp trackInfo "track_id";
          id_text ← toStringOpt track_id;
          title_link ← getProp trackInfo "title_link";
          title ← getProp trackInfo "title";
          current ← getProp tralbumData "current";
          duration ← getProp trackInfo "duration";
          track_num ← getProp trackInfo "track_num";
          newBandcampSong
            {| ti_id := js_or id_text title_link;
               ti_title := title;
               ti_artist := artist;
               ti_album := getPropOpt current "title";
               ti_duration := js_or duration (of_int 0);
               ti_url := url;
               ti_thumbnail := thumbnail;
               ti_streamUrl := mp3_128;
               ti_trackNumber := track_num |}
            options)
  end.

(** The callback of [.map] in [parseAlbumPage]: one retained [trackinfo]
    entry to a [BandcampTrackInfo]. *)
Definition albumTrack (tralbumData artist thumbnail url trackInfo : jsval)
  : Result BandcampTrackInfo :=
  track_id ← getProp trackInfo "track_id";
  id_text ← toStringOpt track_id;
  title_link ← getProp trackInfo "title_link";
  title ← getProp trackInfo "title";
  current ← getProp tralbumData "current";
  duration ← getProp trackInfo "duration";
  trackUrl ← (if truthy title_link then
                albumBase ← js_split_first url "/album/";
                slug ← interpolate title_link;
                Ok (JStr (albumBase +:+ "/track/" +:+ slug))
              else Ok url);
  file ← getProp trackInfo "file";
  streamUrl ← getProp file "mp3-128";
  track_num ← getProp trackInfo "track_num";
  Ok {| ti_id := js_or id_text title_link;
        ti_title := title;
        ti_artist := artist;
        ti_album := getPropOpt current "title";
        ti_duration := js_or duration (of_int 0);
        ti_url := trackUrl;
        ti_thumbnail := thumbnail;
        ti_streamUrl := streamUrl;
        ti_trackNumber := track_num |}.

(** The predicate of [.filter] in [parseAlbumPage]. *)
Definition hasStream (t : jsval) : Result bool :=
  mp3 ← mp3_128_of t;
  Ok (truthy mp3).

(** [parseAlbumPage(html, url, options)] *)
Definition parseAlbumPage (html : string) (url options : jsval) : Result Album :=
  match match_attr tralbum_attr html with
  | None => Throw (Error "Could not find album data on page")
  | Some blob =>
      tralbumData ← parse_json (decodeEntities blob);
      recordArtist ← getProp tralbumData "artist";
      let artist := js_or recordArtist (JStr (extractArtistFromMeta html)) in
      artFullsizeUrl ← getProp tralbumData "artFullsizeUrl";
      artThumbURL ← getProp tralbumData "artThumbURL";
      let thumbnail :=
        js_or (js_or artFullsizeUrl artThumbURL) (extractThumbnailFromMeta html) in
      trackinfo ← getProp tralbumData "trackinfo";
      entries ← as_array trackinfo;
      retained ← filterR hasStream entries;
      tracks ← mapM (albumTrack tralbumData artist thumbnail url) retained;
      current ← getProp tralbumData "current";
      id_text ← toStringOpt (getPropOpt current "id");
      newBandcampAlbum
        {| ai_id := js_or id_text url;
           ai_title := js_or (getPropOpt current "title") (JStr "Unknown Album");
           ai_artist := artist;
           ai_url := url;
           ai_thumbnail := thumbnail;
           ai_tracks := tracks |}
        options
  end.

(** [getStreamURL(song)] *)
Definition getStreamURL (song : BandcampSong) : Result string :=
  if negb (truthy (song_streamUrl song)) then
    Throw (DisTuneError "BANDCAMP_PLUGIN_INVALID_SONG"
             [JStr "Cannot get stream URL from invalid song."])
  else
    match song_streamUrl song with
    | JStr s =>
        if negb (startsWith s "http://") && negb (startsWith s "https://")
        then Ok ("https:" +:+ s)
        else Ok s
    | _ => Throw (TypeError "song.streamUrl.startsWith is not a function")
    end.
End Plugin.

(** ** Operations that use the network *)

Section Operations.
Context `{Platform} (net : Network).

(** [fetch(...)] is called: the request leaves, and its outcome is the one
    the network assigns to it. *)
Definition send (r : Request) : M NetOutcome := fun w =>
  (Ok (net (length (requests w)) r),
   {| requests := requests w ++ [r]; console := console w |}).

(** [await] on the promise [fetch] returned. *)
Definition response_of (o : NetOutcome) : Result Response :=
  match o with
  | Fulfilled response => Ok response
  | Rejected e => Throw e
  end.

(** The body of [fetchPage] after the response has arrived. *)
Definition page_text (o : NetOutcome) : Result string :=
  response ← response_of o;
  if negb (resp_ok response) then
    Throw (Error ("Failed to fetch page: " +:+ toString (of_int (resp_status response))
                  +:+ " " +:+ resp_statusText response))
  else Ok (resp_body response).

(** [fetchPage(url)] *)
Definition fetchPage (url : jsval) : M string :=
  o ← send (PageRequest url);
  liftR (page_text o).

(** A parameter with a default value: [undefined] selects the default. *)
Definition default_arg (v dflt : jsval) : jsval :=
  match v with
  | JUndefined => dflt
  | _ => v
  end.

(** [resolve(url, options = {})] *)
Definition resolve (url options : jsval) : M Resolved :=
  let options := default_arg options (JObj ∅) in
  if negb (validate url) then throw (INVALID_TYPE "Bandcamp URL" url "url")
  else
    try_catch
      (html ← fetchPage url;
       match url with
       | JStr s =>
           if includes s "/track/" then
             song ← liftC (parseTrackPage html url options);
             mret (ResolvedSong song)
           else if includes s "/album/" then
             album ← liftR (parseAlbumPage html url options);
             mret (ResolvedAlbum album)
           else
             throw (DisTuneError "BANDCAMP_PLUGIN_INVALID_URL"
                      [JStr "URL must be a track or album"])
       | _ => throw (TypeError "url.includes is not a function")
       end)
      (fun error =>
         throw (DisTuneError "BANDCAMP_PLUGIN_RESOLVE_ERROR" [JStr (message error)])).

(** [typeof limit !== 'number' || limit < 1 || !Number.isInteger(limit)] *)
Definition invalid_limit (limit : jsval) : bool :=
  negb (is_number limit) ||
  match limit with
  | JNum n => lt_one n || negb (isInteger n)
  | _ => true
  end.

(** [results.slice(0, limit)] for a limit that passed the check. *)
Definition slice_limit (limit : jsval) (results : list jsval) : list jsval :=
  match limit with
  | JNum n => take (to_count n) results
  | _ => results
  end.

Definition NO_RESULT (query noun : string) : exn :=
  DisTuneError "BANDCAMP_PLUGIN_NO_RESULT"
    [JStr ("Cannot find any " +:+ dquote +:+ query +:+ dquote +:+ " " +:+ noun
           +:+ " on Bandcamp!")].

(** The predicate of [.filter] on the search results: [r.type === kind]. *)
Definition hasKind (kind : string) (r : jsval) : Result bool :=
  type ← getProp r "type";
  Ok (strict_eq type (JStr kind)).

(** The first half of the [try] block of [searchSongs] and [searchAlbums],
    which the two functions spell out identically up to the filter tag
    and the noun of the message: one request to the search endpoint, the
    decoded response, the candidates of the asked kind. *)
Definition autocomplete (query kind noun : string) : M (list jsval) :=
  o ← send (SearchRequest query kind);
  response ← liftR (response_of o);
  data ← liftR (parse_json (resp_body response));
  auto ← liftR (getProp data "auto");
  if negb (truthy (getPropOpt (getPropOpt auto "results") "length")) then
    throw (NO_RESULT query noun)
  else
    all ← liftR (results ← getProp auto "results"; as_array results);
    results ← liftR (filterR (hasKind kind) all);
    if negb (truthy (of_int (Z.of_nat (length results)))) then
      throw (NO_RESULT query noun)
    else mret results.

(** [try { ... } catch (error) { console.error(label, error); return null }]
    around the part of a fan-out callback that runs after its [await]. *)
Definition catching {A} (label : string) (body : Con (option A)) : Con (option A) :=
  match body with
  | (out, Ok a) => (out, Ok a)
  | (out, Throw e) => (out ++ [LogError label e], Ok None)
  end.

(** The callback handed to [.map] in the fan-out, up to its [await]: a
    candidate without a page address settles with [null] at once; for any
    other the page request leaves, and what remains of the callback waits
    for the response. *)
Definition candidateTask {A} (label : string) (parse : string -> jsval -> Con A)
    (result : jsval) : M (Task (option A)) :=
  match getProp result "item_url_path" with
  | Throw e => liftC (console_error (LogError label e) (Ok (Settled None)))
  | Ok pageUrl =>
      if negb (truthy pageUrl) then mret (Settled None)
      else
        o ← send (PageRequest pageUrl);
        mret (Awaiting (catching label
                (html ← pureC (page_text o);
                 entity ← parse html pageUrl;
                 mret (Some entity))))
  end.

(** [await Promise.all(candidates.map(async (result) => ...))] followed by
    [.filter(isTruthy)]. *)
Definition fanOut {A} (label : string) (parse : string -> jsval -> Con A)
    (sched : list nat) (candidates : list jsval) : M (list A) :=
  tasks ← mapM (candidateTask label parse) candidates;
  slots ← promise_all sched tasks;
  mret (filter_isTruthy slots).

(** [searchSongs(query, limit = 10, options = {})]; [sched] is the order in
    which the runtime lets the page fetches complete. *)
Definition searchSongs (query limit options : jsval) (sched : list nat)
  : M (list BandcampSong) :=
  let limit := default_arg limit (of_int 10) in
  let options := default_arg options (JObj ∅) in
  match query with
  | JStr q =>
      if invalid_limit limit then throw (INVALID_TYPE "natural number" limit "limit")
      else
        try_catch
          (results ← autocomplete q "t" "tracks";
           fanOut "Error fetching track:"
             (fun html trackUrl => parseTrackPage html trackUrl options)
             sched (slice_limit limit results))
          (fun error =>
             throw (DisTuneError "BANDCAMP_PLUGIN_SEARCH_ERROR" [JStr (message error)]))
  | _ => throw (INVALID_TYPE "string" query "query")
  end.

(** [new Album({source, songs, name, id, url, thumbnail}, options)] in
    [searchAlbums]. *)
Definition toAlbum (album : Album) (options : jsval) : Album :=
  {| album_source := album_source album;
     album_id := album_id album;
     album_name := album_name album;
     album_artist := JUndefined;
     album_url := album_url album;
     album_thumbnail := album_thumbnail album;
     album_songs := album_songs album;
     album_options := options |}.

(** [searchAlbums(query, limit = 10, options = {})] *)
Definition searchAlbums (query limit options : jsval) (sched : list nat)
  : M (list Album) :=
  let limit := default_arg limit (of_int 10) in
  let options := default_arg options (JObj ∅) in
  match query with
  | JStr q =>
      if invalid_limit limit then throw (INVALID_TYPE "natural number" limit "limit")
      else
        try_catch
          (results ← autocomplete q "a" "albums";
           fanOut "Error fetching album:"
             (fun html albumUrl =>
                album ← pureC (parseAlbumPage html albumUrl options);
                mret (toAlbum album options))
             sched (slice_limit limit results))
          (fun error =>
             throw (DisTuneError "BANDCAMP_PLUGIN_SEARCH_ERROR" [JStr (message error)]))
  | _ => throw (INVALID_TYPE "string" query "query")
  end.

(** [searchSong(query, options)] *)
Definition searchSong (query options : jsval) (sched : list nat) : M BandcampSong :=
  songs ← searchSongs query (of_int 1) options sched;
  match songs with
  | [] =>
      text ← liftR (interpolate query);
      throw (DisTuneError "BANDCAMP_PLUGIN_NO_RESULT"
               [JStr ("Cannot find " +:+ dquote +:+ text +:+ dquote +:+ " on Bandcamp!")])
  | song :: _ => mret song
  end.

(** The predicate of [.filter] in [getRelatedSongs]:
    [t.file?.['mp3-128'] && t.track_id !== song.id]. *)
Definition isRelated (song : BandcampSong) (t : jsval) : Result bool :=
  mp3 ← mp3_128_of t;
  if truthy mp3 then
    track_id ← getProp t "track_id";
    Ok (negb (strict_eq track_id (song_id song)))
  else Ok false.

(** The callback of [.map] in [getRelatedSongs]. *)
Definition relatedTrack (tralbumData artist thumbnail : jsval) (baseUrl : string)
    (trackInfo : jsval) : Result BandcampSong :=
  track_id ← getProp trackInfo "track_id";
  id_text ← toStringOpt track_id;
  title_link ← getProp trackInfo "title_link";
  title ← getProp trackInfo "title";
  current ← getProp tralbumData "current";
  duration ← getProp trackInfo "duration";
  trackUrl ← (if truthy title_link then
                slug ← interpolate title_link;
                Ok (baseUrl +:+ "/track/" +:+ slug)
              else Ok baseUrl);
  file ← getProp trackInfo "file";
  streamUrl ← getProp file "mp3-128";
  track_num ← getProp trackInfo "track_num";
  newBandcampSong
    {| ti_id := js_or id_text title_link;
       ti_title := title;
       ti_artist := artist;
       ti_album := getPropOpt current "title";
       ti_duration := js_or duration (of_int 0);
       ti_url := JStr trackUrl;
       ti_thumbnail := thumbnail;
       ti_streamUrl := streamUrl;
       ti_trackNumber := track_num |}
    (JObj ∅).

(** [getRelatedSongs(song)] *)
Definition getRelatedSongs (song : BandcampSong) : M (list BandcampSong) :=
  if negb (truthy (song_url song)) then mret []
  else
    try_catch
      (baseUrl ← liftR (js_split_first (song_url song) "/track/");
       match baseUrl with
       | EmptyString => mret []
       | _ =>
           html ← fetchPage (JStr baseUrl);
           match match_attr tralbum_attr html with
           | Some blob =>
               tralbumData ← liftR (parse_json (decodeEntities blob));
               trackinfo ← liftR (getProp tralbumData "trackinfo");
               entries ← liftR (as_array trackinfo);
               others ← liftR (filterR (isRelated song) entries);
               let tracks := take 10 others in
               recordArtist ← liftR (getProp tralbumData "artist");
               let artist := js_or recordArtist (JStr (extractArtistFromMeta html)) in
               artFullsizeUrl ← liftR (getProp tralbumData "artFullsizeUrl");
               artThumbURL ← liftR (getProp tralbumData "artThumbURL");
               let thumbnail := js_or artFullsizeUrl artThumbURL in
               liftR (mapM (relatedTrack tralbumData artist thumbnail baseUrl) tracks)
           | None => mret []
           end
       end)
      (fun error =>
         liftC (console_error (LogError "Error getting related songs:" error) (Ok []))).
End Operations.

(** ** The vocabulary of the properties *)

(** A positive integer: a finite number equal to some integer [z] with
    [1 <= z]. *)
Definition positive_integer (v : jsval) : Prop :=
  exists q z, v = JNum (Finite q) /\ (1 <= z)%Z /\ Qeq q (inject_Z z).

(** The decoded search response holds no candidate of the asked kind: its
    result list is missing or empty, or none of its entries carries the
    kind tag. [auto] is the response's [auto] member. *)
Definition no_candidates (kind : string) (auto : jsval) : Prop :=
  truthy (getPropOpt (getPropOpt auto "results") "length") = false \/
  exists all,
    getPropOpt auto "results" = JArr all /\
    Forall (fun r => exists tag, getProp r "type" = Ok tag /\
                                 strict_eq tag (JStr kind) = false) all.

(** The [mp3-128] stream URL of a [trackinfo] entry, [undefined] when the
    entry has no [file] or the file has no such member. *)
Definition stream_of (t : jsval) : jsval := getPropOpt (getPropOpt t "file") "mp3-128".

(** An entry possesses a stream URL when that value is truthy. *)
Definition qualifies (t : jsval) : bool := truthy (stream_of t).

(** The shape the page data has for a [trackinfo] entry: it is not [null],
    and where it has a stream URL, that URL is a string and the entry's id
    and slug are values that convert to strings. *)
Definition entry_shaped (t : jsval) : Prop :=
  nullish t = false /\
  (qualifies t = true ->
   (exists u, stream_of t = JStr u) /\
   unprintable (getPropOpt t "track_id") = false /\
   unprintable (getPropOpt t "title_link") = false).

(** The song built for an entry: its name is the entry's title, its stream
    URL the entry's with a scheme in front where it had none, and its id
    and track number are the entry's. *)
Definition song_of_entry `{Platform} (t : jsval) (s : BandcampSong) : Prop :=
  song_name s = getPropOpt t "title" /\
  (exists u, stream_of t = JStr u /\
             song_streamUrl s = JStr (if has_scheme u then u else "https:" +:+ u)) /\
  (exists id_text,
     toStringOpt (getPropOpt t "track_id") = Ok id_text /\
     song_id s = js_or id_text (getPropOpt t "title_link")) /\
  song_trackNumber s = getPropOpt t "track_num".

(** The candidates of a search, one by one and in the order of the list.
    [n] is the number of requests sent before the first page request. *)
Section Candidates.
Context `{Platform} (net : Network) {A : Type}.
Context (label : string) (parse : string -> jsval -> Con A).

(** The page address of a candidate that has one. *)
Definition pageUrlOf (c : jsval) : option jsval :=
  let address := getPropOpt c "item_url_path" in
  if truthy address then Some address else None.

Definition has_page (c : jsval) : bool := bool_decide (is_Some (pageUrlOf c)).

(** The page of a candidate is fetched and parsed. *)
Definition fetched (o : NetOutcome) (address : jsval) : Con A :=
  html ← pureC (page_text o);
  parse html address.

(** What each candidate comes to: the entity parsed from its page, or
    nothing when it has no page address or when the fetch or the parse
    failed. *)
Fixpoint candidateOutcomes (n : nat) (candidates : list jsval) : list (option A) :=
  match candidates with
  | [] => []
  | c :: rest =>
      match pageUrlOf c with
      | None => None :: candidateOutcomes n rest
      | Some address =>
          match (fetched (net n (PageRequest address)) address).2 with
          | Ok entity => Some entity
          | Throw _ => None
          end :: candidateOutcomes (S n) rest
      end
  end.

(** The console lines of the candidates whose page is fetched: what the
    parse writes, and the report of a failure. *)
Fixpoint candidateLines (n : nat) (candidates : list jsval) : list LogEntry :=
  match candidates with
  | [] => []
  | c :: rest =>
      match pageUrlOf c with
      | None => candidateLines n rest
      | Some address =>
          let run := fetched (net n (PageRequest address)) address in
          (run.1 ++ match run.2 with
                    | Ok _ => []
                    | Throw e => [LogError label e]
                    end)
          ++ candidateLines (S n) rest
      end
  end.
End Candidates.

(** The bookkeeping of a [Promise.all] under way. *)
Section Joining.
Context {A : Type}.
Variables (tasks : list (Task A)) (vals : list A).

(** The lines promise [i] writes when it settles. *)
Definition task_lines (i : nat) : list LogEntry :=
  default [] ((fun t => (run_task t).1) <$> tasks !! i).

(** What holds of the join while promises settle one after another, when
    every promise fulfils with its value of [vals]: [order] lists the
    promises settled so far. *)
Definition joining (order : list nat) (st : Join A * list LogEntry) : Prop :=
  NoDup order /\
  (forall i, i ∈ order <-> i ∈ settled st.1) /\
  (forall i, i ∈ order -> i < length tasks) /\
  length (values st.1) = length tasks /\
  rejection st.1 = None /\
  (forall i, i ∈ order -> values st.1 !! i = vals !! i) /\
  st.2 = concat (map task_lines order).
End Joining.

(** A stored stream URL that a player can be handed: a string that begins
    with [http://] or with [https:]. *)
Definition carries_scheme (v : jsval) : Prop :=
  exists u, v = JStr u /\ (startsWith u "http://" = true \/ startsWith u "https:" = true).

(** What every song the plugin builds has: the source tag, a stream URL
    with its scheme, and an uploader name that is not empty. *)
Definition song_sound (s : BandcampSong) : Prop :=
  song_source s = "bandcamp" /\
  carries_scheme (song_streamUrl s) /\
  truthy (song_uploader_name s) = true.

(** ** The encoding the extractor undoes *)

(** Modelled from the spec: [html-encode], the HTML-entity encoding of the
    [data-tralbum] attribute value. The page's server applies it and the
    repository holds no code for it; it writes each of the five characters
    the spec lists as its entity and leaves every other character alone. *)
Definition encodeChar (c : ascii) : string :=
  if Ascii.eqb c "034"%char then "&quot;"
  else if Ascii.eqb c "&"%char then "&amp;"
  else if Ascii.eqb c "<"%char then "&lt;"
  else if Ascii.eqb c ">"%char then "&gt;"
  else if Ascii.eqb c "'"%char then "&#39;"
  else String c EmptyString.

Fixpoint htmlEncode (x : string) : string :=
  match x with
  | EmptyString => EmptyString
  | String c x' => encodeChar c +:+ htmlEncode x'
  end.

(** The encoding of a text after the first [stage] replacements of the
    decoder have run over it: the entities of the characters already
    decoded are gone, the others are still there. *)
Definition enc_after (stage : nat) (c : ascii) : string :=
  if Ascii.eqb c "034"%char then (if Nat.ltb stage 1 then "&quot;" else String c EmptyString)
  else if Ascii.eqb c "&"%char then (if Nat.ltb stage 2 then "&amp;" else String c EmptyString)
  else if Ascii.eqb c "<"%char then (if Nat.ltb stage 3 then "&lt;" else String c EmptyString)
  else if Ascii.eqb c ">"%char then (if Nat.ltb stage 4 then "&gt;" else String c EmptyString)
  else if Ascii.eqb c "'"%char then (if Nat.ltb stage 5 then "&#39;" else String c EmptyString)
  else String c EmptyString.

Fixpoint encode_after (stage : nat) (x : string) : string :=
  match x with
  | EmptyString => EmptyString
  | String c x' => enc_after stage c +:+ encode_after stage x'
  end.

(** A character the encoding leaves alone, and a text made of such
    characters. *)
Definition plain (c : ascii) : bool :=
  negb (Ascii.eqb c "034"%char || Ascii.eqb c "&"%char || Ascii.eqb c "<"%char
        || Ascii.eqb c ">"%char || Ascii.eqb c "'"%char).

Fixpoint all_plain (p : string) : bool :=
  match p with
  | EmptyString => true
  | String c p' => plain c && all_plain p'
  end.

(** ** A small runtime for the worked examples *)

Module Sample.

(** A stand-in for [new URL]: it reads [scheme://host/path] and nothing
    else. *)
Definition parse_url (s : string) : option URL :=
  if includes s "://" then
    let rest := string_drop (String.length (split_first s "://") + 3) s in
    let host := split_first rest "/" in
    let path := string_drop (String.length host) rest in
    match host with
    | EmptyString => None
    | _ => Some {| hostname := host;
                   pathname := match path with EmptyString => "/" | _ => path end |}
    end
  else None.

Definition quoted (s : string) : string := dquote +:+ s +:+ dquote.

(** [String(v)] on the numbers and booleans of the examples. *)
Definition to_string (v : jsval) : string :=
  match v with
  | JNum (Finite q) => pretty (Qnum q / Z.pos (Qden q))%Z
  | JNum NaN => "NaN"
  | JNum PosInf => "Infinity"
  | JNum NegInf => "-Infinity"
  | JBool true => "true"
  | JBool false => "false"
  | JUndefined => "undefined"
  | JNull => "null"
  | JStr s => s
  | JArr _ => "[array]"
  | JObj _ => "[object Object]"
  end.

(** A [DisTuneError] with a code of the plugin's own carries the text it
    was given. *)
Definition error_message (code : string) (args : list jsval) : string :=
  match args with
  | JStr text :: _ => text
  | _ => code
  end.

(** [JSON.parse] on the documents of the examples: [docs] pairs each text
    with the value it denotes. *)
Definition parse_with (docs : list (string * jsval)) (text : string) : option jsval :=
  snd <$> find (fun d => String.eqb (fst d) text) docs.

Definition platform (docs : list (string * jsval)) : Platform :=
  {| URL_parse := parse_url;
     JSON_parse := parse_with docs;
     toString := to_string;
     DisTuneError_message := error_message |}.

Definition obj (fields : list (string * jsval)) : jsval := JObj (list_to_map fields).

Definition page_with (text : string) : string :=
  "<html><div " +:+ tralbum_attr +:+ htmlEncode text +:+ dquote +:+ "></div></html>".

Definition ok_response (body : string) : NetOutcome :=
  Fulfilled {| resp_ok := true; resp_status := 200; resp_statusText := "OK";
               resp_body := body |}.

Definition not_found : NetOutcome :=
  Fulfilled {| resp_ok := false; resp_status := 404; resp_statusText := "Not Found";
               resp_body := EmptyString |}.

Definition empty_world : World := mkWorld [] [].

(** *** A small catalogue: one artist, one album, a search index *)

Definition field (name value : string) : string := quoted name +:+ ":" +:+ value.

Definition entry_text (id : Z) (title slug : string) (stream : option string) : string :=
  "{" +:+ field "track_id" (pretty id) +:+ "," +:+ field "title" (quoted title) +:+ ","
  +:+ field "title_link" (quoted slug) +:+ ","
  +:+ field "file" (match stream with
                    | Some u => "{" +:+ field "mp3-128" (quoted u) +:+ "}"
                    | None => "null"
                    end)
  +:+ "}".

Definition entry_value (id : Z) (title slug : string) (stream : option string) : jsval :=
  obj [("track_id", of_int id); ("title", JStr title); ("title_link", JStr slug);
       ("file", match stream with
                | Some u => obj [("mp3-128", JStr u)]
                | None => JNull
                end)].

Definition stream_one : string := "//t4.bcbits.com/stream/one".
Definition stream_two : string := "https://t4.bcbits.com/stream/two".

(** The record of the track page [/track/one]. *)
Definition track_text : string :=
  "{" +:+ field "artist" (quoted "Artist") +:+ ","
  +:+ field "trackinfo" ("[" +:+ entry_text 42 "One" "one" (Some stream_one) +:+ "]")
  +:+ "}".
Definition track_value : jsval :=
  obj [("artist", JStr "Artist");
       ("trackinfo", JArr [entry_value 42 "One" "one" (Some stream_one)])].

(** The record of the album page and of the artist's front page: three
    entries, the middle one without a stream. *)
Definition album_text : string :=
  "{" +:+ field "artist" (quoted "Artist") +:+ ","
  +:+ field "current" ("{" +:+ field "title" (quoted "First") +:+ ","
                       +:+ field "id" "9" +:+ "}") +:+ ","
  +:+ field "trackinfo"
        ("[" +:+ entry_text 42 "One" "one" (Some stream_one) +:+ ","
         +:+ entry_text 46 "Silent" "silent" None +:+ ","
         +:+ entry_text 43 "Two" "two" (Some stream_two) +:+ "]")
  +:+ "}".
Definition album_entries : list jsval :=
  [entry_value 42 "One" "one" (Some stream_one);
   entry_value 46 "Silent" "silent" None;
   entry_value 43 "Two" "two" (Some stream_two)].
Definition album_value : jsval :=
  obj [("artist", JStr "Artist");
       ("current", obj [("title", JStr "First"); ("id", of_int 9)]);
       ("trackinfo", JArr album_entries)].

(** A record whose one entry has for its id an object with a [toString]
    member of its own. *)
Definition odd_entry_text : string :=
  "{" +:+ field "track_id" ("{" +:+ field "toString" "1" +:+ "}") +:+ ","
  +:+ field "title" (quoted "Odd") +:+ "," +:+ field "title_link" (quoted "odd") +:+ ","
  +:+ field "file" ("{" +:+ field "mp3-128" (quoted stream_one) +:+ "}") +:+ "}".
Definition odd_entry_value : jsval :=
  obj [("track_id", obj [("toString", of_int 1)]); ("title", JStr "Odd");
       ("title_link", JStr "odd"); ("file", obj [("mp3-128", JStr stream_one)])].
Definition odd_text : string :=
  "{" +:+ field "artist" (quoted "Artist") +:+ ","
  +:+ field "trackinfo" ("[" +:+ odd_entry_text +:+ "]") +:+ "}".
Definition odd_value : jsval :=
  obj [("artist", JStr "Artist"); ("trackinfo", JArr [odd_entry_value])].

Definition candidate_text (kind name : string) (path : option string) (id : Z) : string :=
  "{" +:+ field "type" (quoted kind) +:+ "," +:+ field "name" (quoted name) +:+ ","
  +:+ match path with
      | Some p => field "item_url_path" (quoted p) +:+ ","
      | None => EmptyString
      end
  +:+ field "id" (pretty id) +:+ "}".
Definition candidate_value (kind name : string) (path : option string) (id : Z) : jsval :=
  obj (("type", JStr kind) :: ("name", JStr name) ::
       match path with
       | Some p => [("item_url_path", JStr p)]
       | None => []
       end ++ [("id", of_int id)]).

Definition track_url : string := "https://artist.bandcamp.com/track/one".
Definition gone_url : string := "https://artist.bandcamp.com/track/gone".
Definition album_url : string := "https://artist.bandcamp.com/album/first".
Definition artist_url : string := "https://artist.bandcamp.com".

Definition results_text (candidates : string) : string :=
  "{" +:+ field "auto" ("{" +:+ field "results" ("[" +:+ candidates +:+ "]") +:+ "}") +:+ "}".
Definition results_value (candidates : list jsval) : jsval :=
  obj [("auto", obj [("results", JArr candidates)])].

(** What the search endpoint answers for tracks: a track whose page is
    there, one whose page is gone, one without a page address, a band. *)
Definition track_candidates : list jsval :=
  [candidate_value "t" "One" (Some track_url) 42;
   candidate_value "t" "Gone" (Some gone_url) 44;
   candidate_value "t" "Nowhere" None 45;
   candidate_value "b" "Artist" None 7].
Definition tracks_found_text : string :=
  results_text (candidate_text "t" "One" (Some track_url) 42 +:+ ","
                +:+ candidate_text "t" "Gone" (Some gone_url) 44 +:+ ","
                +:+ candidate_text "t" "Nowhere" None 45 +:+ ","
                +:+ candidate_text "b" "Artist" None 7).
Definition album_candidates : list jsval :=
  [candidate_value "a" "Lost" (Some gone_url) 8;
   candidate_value "a" "First" (Some album_url) 9].
Definition albums_found_text : string :=
  results_text (candidate_text "a" "Lost" (Some gone_url) 8 +:+ ","
                +:+ candidate_text "a" "First" (Some album_url) 9).
Definition nothing_found_text : string := results_text EmptyString.

Definition docs : list (string * jsval) :=
  [(track_text, track_value);
   (album_text, album_value);
   (tracks_found_text, results_value track_candidates);
   (albums_found_text, results_value album_candidates);
   (nothing_found_text, results_value []);
   (odd_text, odd_value)].

Definition runtime : Platform := platform docs.

(** The network of the examples: the query [one] finds the candidates
    above, any other query finds nothing; three pages exist. *)
Definition net : Network := fun _ request =>
  match request with
  | SearchRequest query kind =>
      if String.eqb query "one" then
        ok_response (if String.eqb kind "t" then tracks_found_text else albums_found_text)
      else ok_response nothing_found_text
  | PageRequest (JStr u) =>
      if String.eqb u track_url then ok_response (page_with track_text)
      else if String.eqb u album_url then ok_response (page_with album_text)
      else if String.eqb u artist_url then ok_response (page_with album_text)
      else not_found
  | PageRequest _ => Rejected (TypeError "Failed to parse URL")
  end.

(** A song whose stored stream URL has neither a scheme nor the two
    slashes of a protocol-relative address. *)
Definition bare_song : BandcampSong :=
  {| song_source := "bandcamp"; song_id := JStr "42"; song_name := JStr "One";
     song_url := JStr track_url; song_thumbnail := JUndefined;
     song_duration := of_int 0; song_uploader_name := JStr "Artist";
     song_uploader_url := artist_url; song_options := JObj ∅;
     song_streamUrl := JStr "t4.bcbits.com/stream/one";
     song_trackNumber := JUndefined |}.

(** What a page whose [mp3-128] member is such a text gives the
    [BandcampSong] constructor. *)
Definition bare_info : BandcampTrackInfo :=
  {| ti_id := JStr "42"; ti_title := JStr "One"; ti_artist := JStr "Artist";
     ti_album := JUndefined; ti_duration := of_int 0; ti_url := JStr track_url;
     ti_thumbnail := JUndefined; ti_streamUrl := JStr "t4.bcbits.com/stream/one";
     ti_trackNumber := JUndefined |}.

(** A text that itself contains the letters of an entity. *)
Definition lt_text : string := "{" +:+ field "title" (quoted "a &lt; b") +:+ "}".

End Sample.

(** * Properties *)

(** ** Strings *)

Lemma prefix_spec (p s : string) :
  String.prefix p s = true <-> exists r, s = p +:+ r.
Proof.
  revert s. induction p as [|a p IH]; intros s.
  - split; [intros _; exists s; reflexivity | intros _; destruct s; reflexivity].
  - destruct s as [|b s]; simpl.
    + split; [discriminate | intros [r Hr]; discriminate].
    + destruct (ascii_dec a b) as [->|Hab].
      * rewrite IH. split; intros [r Hr]; exists r; [rewrite Hr; reflexivity | congruence].
      * split; [discriminate | intros [r Hr]; congruence].
Qed.


Lemma endsWith_spec (s suffix : string) :
  endsWith s suffix = true <-> exists p, s = p +:+ suffix.
Proof.
  induction s as [|c s IH]; cbn [endsWith].
  - rewrite orb_false_r, String.eqb_eq. split.
    + intros <-. exists EmptyString. reflexivity.
    + intros [[|c p] Hp]; simpl in Hp; [congruence | discriminate].
  - rewrite orb_true_iff, String.eqb_eq, IH. split.
    + intros [<- | [p ->]]; [exists EmptyString | exists (String c p)]; reflexivity.
    + intros [[|c' p] Hp]; simpl in Hp; [left; congruence | right].
      injection Hp as -> ->. exists p. reflexivity.
Qed.

Lemma includes_spec (s sub : string) :
  includes s sub = true <-> exists a b, s = a +:+ sub +:+ b.
Proof.
  induction s as [|c s IH]; cbn [includes].
  - rewrite orb_false_r, prefix_spec. split.
    + intros [r Hr]. exists EmptyString, r. assumption.
    + intros [[|c a] [b Hb]]; simpl in Hb; [exists b; assumption | discriminate].
  - rewrite orb_true_iff, prefix_spec, IH. split.
    + intros [[r Hr] | (a & b & ->)].
      * exists EmptyString, r. assumption.
      * exists (String c a), b. reflexivity.
    + intros [[|c' a] [b Hb]]; simpl in Hb.
      * left. exists b. assumption.
      * right. injection Hb as -> ->. exists a, b. reflexivity.
Qed.

(** ** The URL classifier *)

Section Classifier.
Context `{Platform}.

Lemma validate_not_string (v : jsval) : is_string v = false -> validate v = false.
Proof. destruct v; simpl; congruence. Qed.

Lemma validate_malformed (s : string) : URL_parse s = None -> validate (JStr s) = false.
Proof. intros Hs. simpl. rewrite Hs. reflexivity. Qed.

(** C7. [validate] answers [true] exactly on a string that parses as a URL
    whose host name ends in [.bandcamp.com] and whose path contains
    [/track/] or [/album/]; on every other value, a string that is not a
    URL included, it answers [false]. Being a total boolean function, it
    never raises. *)
Theorem validate_spec (input : jsval) :
  (validate input = true <->
   exists s parsed,
     input = JStr s /\ URL_parse s = Some parsed /\
     (exists subdomain, hostname parsed = subdomain +:+ ".bandcamp.com") /\
     (exists before after,
        pathname parsed = before +:+ "/track/" +:+ after \/
        pathname parsed = before +:+ "/album/" +:+ after)) /\
  (validate input = false <->
   ~ exists s parsed,
       input = JStr s /\ URL_parse s = Some parsed /\
       (exists subdomain, hostname parsed = subdomain +:+ ".bandcamp.com") /\
       (exists before after,
          pathname parsed = before +:+ "/track/" +:+ after \/
          pathname parsed = before +:+ "/album/" +:+ after)).
Proof.
  assert (Hiff : validate input = true <->
    exists s parsed,
      input = JStr s /\ URL_parse s = Some parsed /\
      (exists subdomain, hostname parsed = subdomain +:+ ".bandcamp.com") /\
      (exists before after,
         pathname parsed = before +:+ "/track/" +:+ after \/
         pathname parsed = before +:+ "/album/" +:+ after)).
  { split.
    - destruct input as [| | | |s| |]; simpl; try discriminate.
      destruct (URL_parse s) as [parsed|] eqn:Hp; [|discriminate].
      rewrite andb_true_iff, orb_true_iff, endsWith_spec, !includes_spec.
      intros [Hhost Hpath]. exists s, parsed.
      split; [reflexivity|]. split; [exact Hp|]. split; [assumption|].
      destruct Hpath as [(a & b & Hab)|(a & b & Hab)]; exists a, b; tauto.
    - intros (s & parsed & -> & Hp & Hhost & a & b & Hpath). simpl. rewrite Hp.
      rewrite andb_true_iff, orb_true_iff, endsWith_spec, !includes_spec.
      split; [assumption|]. destruct Hpath; [left|right]; exists a, b; assumption. }
  split; [exact Hiff|].
  rewrite <- Hiff. destruct (validate input); split; intros; congruence.
Qed.
End Classifier.

(** ** Entity decoding *)

Lemma includes_amp_cons (c : ascii) (s : string) :
  includes (String c s) "&" = false -> c <> "&"%char /\ includes s "&" = false.
Proof.
  cbn [includes]. rewrite orb_false_iff. intros [Hp Hs]. split; [|exact Hs].
  intros ->. apply not_true_iff_false in Hp. apply Hp, prefix_spec. exists s. reflexivity.
Qed.

Lemma prefix_other (a c : ascii) (p s : string) :
  c <> a -> String.prefix (String a p) (String c s) = false.
Proof.
  intros Hc. apply not_true_iff_false. intros [r Hr]%prefix_spec. simpl in Hr. congruence.
Qed.

Lemma replace_from_skip (p pat rep rest : string) :
  replace_from (String.length p) pat rep (p +:+ rest) = replace_from 0 pat rep rest.
Proof. induction p as [|c p IH]; [reflexivity | exact IH]. Qed.

Lemma replaceAll_match (a : ascii) (p rep rest : string) :
  replaceAll (String a p) rep (String a p +:+ rest)
  = rep +:+ replaceAll (String a p) rep rest.
Proof.
  unfold replaceAll. change (String a p +:+ rest) with (String a (p +:+ rest)).
  cbn [replace_from].
  assert (String.prefix (String a p) (String a (p +:+ rest)) = true) as ->
    by (apply prefix_spec; exists rest; reflexivity).
  cbn [String.length]. rewrite Nat.sub_1_r. cbn [Nat.pred]. rewrite replace_from_skip.
  reflexivity.
Qed.

Lemma replaceAll_skip (pat rep : string) (c : ascii) (rest : string) :
  String.prefix pat (String c rest) = false ->
  replaceAll pat rep (String c rest) = String c (replaceAll pat rep rest).
Proof. intros Hp. unfold replaceAll. cbn [replace_from]. rewrite Hp. reflexivity. Qed.

Ltac pass_entity :=
  cbn [String.append];
  repeat (rewrite replaceAll_skip by reflexivity).

Ltac decode_stage x :=
  let c := fresh "c" in
  let IH := fresh "IH" in
  let Hc := fresh "Hc" in
  let Hx := fresh "Hx" in
  induction x as [|c x IH]; [reflexivity|];
  intros [Hc Hx]%includes_amp_cons; specialize (IH Hx);
  cbn [encode_after]; unfold enc_after; cbn [Nat.ltb Nat.leb];
  repeat match goal with
         | |- context [Ascii.eqb c ?d] =>
             destruct (Ascii.eqb_spec c d) as [->|?]; [try congruence|]
         end;
  try (rewrite replaceAll_match, IH; reflexivity);
  try (pass_entity; rewrite IH; reflexivity);
  try (cbn [String.append]; rewrite replaceAll_skip by (apply prefix_other; assumption);
       rewrite IH; reflexivity).

Lemma stage_quot (x : string) :
  includes x "&" = false ->
  replaceAll "&quot;" dquote (encode_after 0 x) = encode_after 1 x.
Proof. decode_stage x. Qed.

Lemma stage_amp (x : string) :
  includes x "&" = false ->
  replaceAll "&amp;" "&" (encode_after 1 x) = encode_after 2 x.
Proof. decode_stage x. Qed.

Lemma stage_lt (x : string) :
  includes x "&" = false ->
  replaceAll "&lt;" "<" (encode_after 2 x) = encode_after 3 x.
Proof. decode_stage x. Qed.

Lemma stage_gt (x : string) :
  includes x "&" = false ->
  replaceAll "&gt;" ">" (encode_after 3 x) = encode_after 4 x.
Proof. decode_stage x. Qed.

Lemma stage_apos (x : string) :
  includes x "&" = false ->
  replaceAll "&#39;" "'" (encode_after 4 x) = encode_after 5 x.
Proof. decode_stage x. Qed.

Lemma encode_after_0 (x : string) : encode_after 0 x = htmlEncode x.
Proof. induction x as [|c x IH]; [reflexivity|]. simpl. rewrite IH. reflexivity. Qed.

Lemma encode_after_5 (x : string) : encode_after 5 x = x.
Proof.
  induction x as [|c x IH]; [reflexivity|]. cbn [encode_after]. rewrite IH.
  unfold enc_after. cbn [Nat.ltb Nat.leb].
  repeat match goal with
         | |- context [Ascii.eqb c ?d] => destruct (Ascii.eqb c d)
         end; reflexivity.
Qed.

(** The round trip holds for every text without an ampersand. *)
Lemma decodeEntities_htmlEncode_no_amp (x : string) :
  includes x "&" = false -> decodeEntities (htmlEncode x) = x.
Proof.
  intros Hx. unfold decodeEntities.
  rewrite <- encode_after_0, stage_quot, stage_amp, stage_lt, stage_gt, stage_apos by assumption.
  apply encode_after_5.
Qed.

(** On a text without entity-like substrings the five replacements undo the
    encoding, as on the record of the sample track page. *)
Example decodeEntities_track_text :
  decodeEntities (htmlEncode Sample.track_text) = Sample.track_text.
Proof. vm_compute. reflexivity. Qed.

(** C3. The round trip fails on a text that contains the letters of an
    entity: the encoder writes the ampersand of [&lt;] as [&amp;], the
    second replacement of the decoder turns [&amp;lt;] back into [&lt;], and
    the third one, running after it, turns that into [<]. The decoded text
    differs from the original. *)
Theorem decodeEntities_htmlEncode_lt :
  htmlEncode Sample.lt_text
  = "{&quot;title&quot;:&quot;a &amp;lt; b&quot;}" /\
  decodeEntities (htmlEncode Sample.lt_text)
  = "{" +:+ Sample.field "title" (Sample.quoted "a < b") +:+ "}" /\
  decodeEntities (htmlEncode Sample.lt_text) <> Sample.lt_text.
Proof. vm_compute. repeat split; discriminate. Qed.

(** ** Stream URLs *)

Lemma startsWith_https_colon (s : string) :
  startsWith ("https:" +:+ s) "https://" = startsWith s "//".
Proof.
  unfold startsWith. simpl.
  repeat match goal with
         | |- context [ascii_dec ?a ?a] => destruct (ascii_dec a a); [|congruence]
         end.
  reflexivity.
Qed.

(** A stored URL with a scheme comes back as it is, so asking again for
    the stream URL of a song that holds the answer gives the same answer. *)
Lemma getStreamURL_schemed (song : BandcampSong) (s : string) :
  song_streamUrl song = JStr s -> has_scheme s = true -> getStreamURL song = Ok s.
Proof.
  intros Hs Hscheme. unfold getStreamURL. rewrite Hs.
  unfold has_scheme in Hscheme.
  assert (truthy (JStr s) = true) as ->.
  { destruct s; [discriminate Hscheme | reflexivity]. }
  simpl. apply orb_true_iff in Hscheme as [-> | ->]; simpl; [reflexivity|].
  rewrite andb_false_r. reflexivity.
Qed.

(** A stored URL without one gets [https:] in front, and the result begins
    with [https://] only if the stored text began with two slashes. *)
Lemma getStreamURL_unschemed (song : BandcampSong) (s : string) :
  song_streamUrl song = JStr s -> s <> EmptyString -> has_scheme s = false ->
  getStreamURL song = Ok ("https:" +:+ s) /\
  startsWith ("https:" +:+ s) "https://" = startsWith s "//".
Proof.
  intros Hs Hne Hscheme. split; [|apply startsWith_https_colon].
  unfold getStreamURL. rewrite Hs.
  assert (truthy (JStr s) = true) as -> by (destruct s; [congruence | reflexivity]).
  unfold has_scheme in Hscheme. apply orb_false_iff in Hscheme as [-> ->]. reflexivity.
Qed.

(** C5. [getStreamURL] on a song whose stored stream URL is a bare host and
    path: the value returned is [https:] followed by the stored text, and
    it does not begin with [https://]. A song the constructor builds from
    such a stream URL already stores it with [https:] in front, still
    without the two slashes, and [getStreamURL] puts [https:] in front once
    more. *)
Theorem getStreamURL_bare_host :
  (song_streamUrl Sample.bare_song = JStr "t4.bcbits.com/stream/one" /\
   has_scheme "t4.bcbits.com/stream/one" = false /\
   getStreamURL Sample.bare_song = Ok "https:t4.bcbits.com/stream/one" /\
   startsWith "https:t4.bcbits.com/stream/one" "https://" = false) /\
  (exists song,
     newBandcampSong Sample.bare_info (JObj ∅) = Ok song /\
     song_streamUrl song = JStr "https:t4.bcbits.com/stream/one" /\
     has_scheme "https:t4.bcbits.com/stream/one" = false /\
     getStreamURL song = Ok "https:https:t4.bcbits.com/stream/one" /\
     startsWith "https:https:t4.bcbits.com/stream/one" "https://" = false).
Proof. split; [|eexists]; vm_compute; repeat split. Qed.

(** ** Related tracks *)

Lemma mapM_Result_length {A B} (f : A -> Result B) (l : list A) (l' : list B) :
  mapM f l = Ok l' -> length l' = length l.
Proof.
  revert l'. induction l as [|x l IH]; intros l'; simpl.
  - intros [= <-]. reflexivity.
  - destruct (f x) as [y|e]; simpl; [|discriminate].
    destruct (mapM f l) as [ys|e]; simpl; [|discriminate].
    intros [= <-]. simpl. f_equal. apply IH. reflexivity.
Qed.

Section Related.
Context `{Platform} (net : Network).

(** The lookup never throws and never returns more than ten songs. *)
Lemma getRelatedSongs_total (song : BandcampSong) (w : World) :
  exists songs w',
    getRelatedSongs net song w = (Ok songs, w') /\ length songs <= 10.
Proof.
  unfold getRelatedSongs.
  destruct (truthy (song_url song)); simpl.
  - unfold try_catch.
    match goal with
    | |- context [match ?body w with _ => _ end] => destruct (body w) as [[songs|e] w'] eqn:Hbody
    end.
    + exists songs, w'. split; [reflexivity|].
      revert Hbody. unfold mbind, M_bind, liftR, fetchPage, mbind, M_bind, liftR, mret, M_ret.
      destruct (js_split_first (song_url song) "/track/") as [[|c base]|]; simpl;
        try (intros [= <- _]; simpl; lia); try discriminate.
      destruct (page_text _) as [html|]; [|discriminate].
      destruct (match_attr tralbum_attr html); [|intros [= <- _]; simpl; lia].
      destruct (parse_json _) as [data|]; [|discriminate].
      destruct (getProp data "trackinfo") as [ti|]; [|discriminate].
      destruct (as_array ti) as [entries|]; [|discriminate].
      destruct (filterR _ entries) as [others|]; [|discriminate].
      destruct (getProp data "artist"); [|discriminate].
      destruct (getProp data "artFullsizeUrl"); [|discriminate].
      destruct (getProp data "artThumbURL"); [|discriminate].
      intros [= Hmap _]. apply mapM_Result_length in Hmap. rewrite Hmap, length_take. lia.
    + eexists _, _. split; [reflexivity|]. simpl. lia.
  - exists [], w. split; [reflexivity|]. simpl. lia.
Qed.

(** The test [t.track_id !== song.id] compares the number the page
    carries with the string the song holds, and so it always passes: the
    filter keeps exactly the entries that have a stream. *)
Lemma isRelated_number_id (song : BandcampSong) (t : jsval) (id : string) (n : number) :
  song_id song = JStr id -> getProp t "track_id" = Ok (JNum n) ->
  isRelated song t = hasStream t.
Proof.
  intros Hid Ht. unfold isRelated, hasStream.
  destruct (mp3_128_of t) as [mp3|e]; simpl; [|reflexivity].
  rewrite Ht, Hid. simpl. destruct (truthy mp3); reflexivity.
Qed.
End Related.

(** C6. A track is resolved from its page and the related tracks are then
    looked up for it: the song's id is the string [42], the artist page
    lists the tracks numbered 42, 46 (no stream) and 43, and the lookup
    returns the songs 42 and 43. The original track is among them. *)
Theorem getRelatedSongs_keeps_original :
  exists song related w1 w2,
    resolve (H := Sample.runtime) Sample.net (JStr Sample.track_url) JUndefined
      Sample.empty_world = (Ok (ResolvedSong song), w1) /\
    getRelatedSongs (H := Sample.runtime) Sample.net song w1 = (Ok related, w2) /\
    song_id song = JStr "42" /\
    map song_id related = [JStr "42"; JStr "43"] /\
    map song_name related = [JStr "One"; JStr "Two"].
Proof. do 4 eexists. vm_compute. repeat split. Qed.

(** ** Errors of [resolve] *)

Section ResolveErrors.
Context `{Platform} (net : Network).
#[local] Arguments message : simpl never.

(** C10. A URL that fails [validate] makes [resolve] throw the
    [INVALID_TYPE] error itself, with nothing sent and nothing written: the
    world is the one the call started in, and the error is not the
    [BANDCAMP_PLUGIN_RESOLVE_ERROR] wrapper. A URL that passes sends the
    page request, and whatever fails from there on reaches the caller as
    [BANDCAMP_PLUGIN_RESOLVE_ERROR] carrying the message of the error
    caught. So the wrapper is seen only after validation and a fetch. *)
Theorem resolve_errors (url options : jsval) (w : World) :
  (validate url = false ->
   resolve net url options w = (Throw (INVALID_TYPE "Bandcamp URL" url "url"), w)) /\
  (validate url = true ->
   forall e w', resolve net url options w = (Throw e, w') ->
     requests w' = requests w ++ [PageRequest url] /\
     exists inner,
       e = DisTuneError "BANDCAMP_PLUGIN_RESOLVE_ERROR" [JStr (message inner)]) /\
  (forall args w',
     resolve net url options w
     = (Throw (DisTuneError "BANDCAMP_PLUGIN_RESOLVE_ERROR" args), w') ->
     validate url = true /\ requests w' = requests w ++ [PageRequest url]).
Proof.
  assert (Hinvalid : validate url = false ->
    resolve net url options w = (Throw (INVALID_TYPE "Bandcamp URL" url "url"), w)).
  { intros Hv. unfold resolve. rewrite Hv. reflexivity. }
  assert (Hvalid : validate url = true ->
    forall e w', resolve net url options w = (Throw e, w') ->
      requests w' = requests w ++ [PageRequest url] /\
      exists inner,
        e = DisTuneError "BANDCAMP_PLUGIN_RESOLVE_ERROR" [JStr (message inner)]).
  { intros Hv e w'. unfold resolve. rewrite Hv.
    destruct url as [| |b|n|s|l|o]; try discriminate Hv. simpl.
    unfold try_catch, fetchPage, mbind, M_bind, send, liftR, liftC, throw, liftR, mret, M_ret.
    destruct (page_text _) as [html|e0]; simpl.
    - destruct (includes s "/track/").
      + destruct (parseTrackPage html (JStr s) _) as [out [song|e1]]; simpl;
          [discriminate|].
        intros [= <- <-]. split; [reflexivity | eexists; reflexivity].
      + destruct (includes s "/album/").
        * destruct (parseAlbumPage html (JStr s) _) as [album|e1]; simpl;
            [discriminate|].
          intros [= <- <-]. split; [reflexivity | eexists; reflexivity].
        * intros [= <- <-]. split; [reflexivity | eexists; reflexivity].
    - intros [= <- <-]. split; [reflexivity | eexists; reflexivity]. }
  split; [exact Hinvalid|]. split; [exact Hvalid|].
  intros args w' Hrun. destruct (validate url) eqn:Hv.
  - split; [reflexivity|]. exact (proj1 (Hvalid eq_refl _ _ Hrun)).
  - rewrite (Hinvalid eq_refl) in Hrun. discriminate Hrun.
Qed.
End ResolveErrors.

Lemma resolve_errors_witness :
  (validate (H := Sample.runtime) (JStr "not-a-url") = false /\
   resolve (H := Sample.runtime) Sample.net (JStr "not-a-url") JUndefined Sample.empty_world
   = (Throw (INVALID_TYPE "Bandcamp URL" (JStr "not-a-url") "url"), Sample.empty_world)) /\
  (validate (H := Sample.runtime) (JStr Sample.gone_url) = true /\
   requests (mkWorld [PageRequest (JStr Sample.gone_url)] [])
   = requests Sample.empty_world ++ [PageRequest (JStr Sample.gone_url)] /\
   exists inner,
     DisTuneError "BANDCAMP_PLUGIN_RESOLVE_ERROR" [JStr "Failed to fetch page: 404 Not Found"]
     = DisTuneError "BANDCAMP_PLUGIN_RESOLVE_ERROR"
         [JStr (message (H := Sample.runtime) inner)]).
Proof.
  split.
  - split; [reflexivity|].
    apply (proj1 (resolve_errors (H := Sample.runtime) Sample.net
                    (JStr "not-a-url") JUndefined Sample.empty_world)).
    reflexivity.
  - split; [reflexivity|].
    apply (proj1 (proj2 (resolve_errors (H := Sample.runtime) Sample.net
                           (JStr Sample.gone_url) JUndefined Sample.empty_world))
             eq_refl _ (mkWorld [PageRequest (JStr Sample.gone_url)] [])).
    reflexivity.
Defined.

(** ** Argument checks of the searches *)

Lemma invalid_limit_spec (limit : jsval) :
  invalid_limit limit = false <-> positive_integer limit.
Proof.
  unfold invalid_limit, positive_integer. split.
  - destruct limit as [| |b|n|s|l|o]; simpl; try discriminate.
    destruct n as [q| | |]; simpl; try discriminate.
    rewrite orb_false_iff, negb_false_iff, Z.ltb_ge, Z.eqb_eq.
    intros [Hge Hmod]. exists q, (Qnum q / Z.pos (Qden q))%Z.
    split; [reflexivity|]. split.
    + apply Z.div_le_lower_bound; lia.
    + unfold Qeq, inject_Z. simpl.
      rewrite Z.mul_1_r, Z.mul_comm. apply Z.div_exact; [lia | assumption].
  - intros (q & z & -> & Hz & Hq). simpl.
    unfold Qeq, inject_Z in Hq. simpl in Hq. rewrite Z.mul_1_r in Hq.
    rewrite orb_false_iff, negb_false_iff, Z.ltb_ge, Z.eqb_eq, Hq. split.
    + nia.
    + apply Z.mod_mul. lia.
Qed.

Section LimitCheck.
Context `{Platform} (net : Network).

(** C8. As the code has it: a [limit] that is given (not [undefined],
    which stands for an omitted argument and selects the default 10) and
    is not a positive integer makes [searchSongs] and [searchAlbums] throw
    [INVALID_TYPE] in the world they were called in: no request has been
    sent. When the query is not a string the error names the query,
    otherwise it names the limit. *)
Theorem search_rejects_invalid_limit (query limit options : jsval) (sched : list nat)
    (w : World) :
  limit <> JUndefined -> ~ positive_integer limit ->
  let rejection :=
    match query with
    | JStr _ => INVALID_TYPE "natural number" limit "limit"
    | _ => INVALID_TYPE "string" query "query"
    end in
  searchSongs net query limit options sched w = (Throw rejection, w) /\
  searchAlbums net query limit options sched w = (Throw rejection, w).
Proof.
  intros Hgiven Hbad. rewrite <- invalid_limit_spec in Hbad.
  apply not_false_is_true in Hbad.
  assert (Hdefault : default_arg limit (of_int 10) = limit)
    by (destruct limit; [congruence | reflexivity..]).
  unfold searchSongs, searchAlbums. rewrite Hdefault, Hbad.
  destruct query; split; reflexivity.
Qed.
End LimitCheck.

Lemma search_rejects_invalid_limit_witness :
  searchSongs (H := Sample.runtime) Sample.net (JStr "one") (of_int 0) JUndefined []
    Sample.empty_world
  = (Throw (INVALID_TYPE "natural number" (of_int 0) "limit"), Sample.empty_world) /\
  searchAlbums (H := Sample.runtime) Sample.net (JStr "one") (of_int 0) JUndefined []
    Sample.empty_world
  = (Throw (INVALID_TYPE "natural number" (of_int 0) "limit"), Sample.empty_world).
Proof.
  apply (search_rejects_invalid_limit (H := Sample.runtime) Sample.net
           (JStr "one") (of_int 0) JUndefined [] Sample.empty_world).
  - discriminate.
  - intros (q & z & Hq & Hz & Heq). injection Hq as <-.
    unfold Qeq, inject_Z in Heq. simpl in Heq. lia.
Defined.

(** C8. As the claim has it, it fails for the non-number [undefined]: passed
    as the limit it selects the default, the check passes, and the search
    request and the page requests go out. *)
Lemma search_undefined_limit_sends :
  is_number JUndefined = false /\
  ~ positive_integer JUndefined /\
  exists songs w',
    searchSongs (H := Sample.runtime) Sample.net (JStr "one") JUndefined JUndefined []
      Sample.empty_world = (Ok songs, w') /\
    requests w' = [SearchRequest "one" "t";
                   PageRequest (JStr Sample.track_url);
                   PageRequest (JStr Sample.gone_url)].
Proof.
  split; [reflexivity|]. split.
  - intros (q & z & Hq & _). discriminate Hq.
  - do 2 eexists. vm_compute. split; reflexivity.
Qed.

(** ** A search that finds nothing *)

Lemma getProp_defined (v : jsval) (k : string) :
  nullish v = false -> getProp v k = Ok (getPropOpt v k).
Proof. destruct v; simpl; intros; congruence. Qed.

Lemma filterR_none {A} (p : A -> Result bool) (l : list A) :
  Forall (fun x => p x = Ok false) l -> filterR p l = Ok [].
Proof.
  induction 1 as [|x l Hx _ IH]; simpl; [reflexivity|].
  rewrite Hx, IH. reflexivity.
Qed.

Section NoResult.
Context `{Platform} (net : Network).
#[local] Arguments message : simpl never.

Lemma autocomplete_no_candidates (q kind noun : string) (w : World)
    (response : Response) (data auto : jsval) :
  net (length (requests w)) (SearchRequest q kind) = Fulfilled response ->
  JSON_parse (resp_body response) = Some data ->
  getProp data "auto" = Ok auto ->
  no_candidates kind auto ->
  autocomplete net q kind noun w
  = (Throw (NO_RESULT q noun),
     {| requests := requests w ++ [SearchRequest q kind]; console := console w |}).
Proof.
  intros Hnet Hjson Hauto Hnone.
  unfold autocomplete, mbind, M_bind, send, liftR, throw, liftR, parse_json.
  rewrite Hnet. simpl. rewrite Hjson, Hauto.
  destruct Hnone as [Hfalsy | (all & Hall & Hkinds)].
  - rewrite Hfalsy. reflexivity.
  - rewrite Hall. destruct all as [|r all]; [reflexivity|].
    assert (Hlen : truthy (getPropOpt (JArr (r :: all)) "length") = true) by reflexivity.
    rewrite Hlen. cbn [negb].
    rewrite getProp_defined, Hall by (destruct auto; simpl in *; congruence).
    cbn [mbind Result_bind as_array].
    rewrite (filterR_none (hasKind kind) (r :: all)); [reflexivity|].
    eapply Forall_impl; [exact Hkinds|].
    intros x (tag & Htag & Hneq). unfold hasKind. rewrite Htag. simpl. rewrite Hneq.
    reflexivity.
Qed.

(** C4. As the code has it: when the decoded search response holds no
    candidate of the asked kind, the search fails, and what the caller
    catches is the [BANDCAMP_PLUGIN_SEARCH_ERROR] wrapper whose text is
    the message of the [BANDCAMP_PLUGIN_NO_RESULT] error thrown inside
    the [try] block; one request, the search itself, has been sent. *)
Theorem search_without_candidates (q : string) (limit options : jsval)
    (sched : list nat) (w : World) (response : Response) (data auto : jsval)
    (kind : string) :
  invalid_limit (default_arg limit (of_int 10)) = false ->
  net (length (requests w)) (SearchRequest q kind) = Fulfilled response ->
  JSON_parse (resp_body response) = Some data ->
  getProp data "auto" = Ok auto ->
  no_candidates kind auto ->
  (kind = "t" ->
   searchSongs net (JStr q) limit options sched w
   = (Throw (DisTuneError "BANDCAMP_PLUGIN_SEARCH_ERROR"
               [JStr (message (NO_RESULT q "tracks"))]),
      {| requests := requests w ++ [SearchRequest q "t"]; console := console w |})) /\
  (kind = "a" ->
   searchAlbums net (JStr q) limit options sched w
   = (Throw (DisTuneError "BANDCAMP_PLUGIN_SEARCH_ERROR"
               [JStr (message (NO_RESULT q "albums"))]),
      {| requests := requests w ++ [SearchRequest q "a"]; console := console w |})).
Proof.
  intros Hlimit Hnet Hjson Hauto Hnone. split; intros ->.
  - unfold searchSongs. rewrite Hlimit. unfold try_catch, mbind, M_bind.
    rewrite (autocomplete_no_candidates q "t" "tracks" w response data auto) by assumption.
    reflexivity.
  - unfold searchAlbums. rewrite Hlimit. unfold try_catch, mbind, M_bind.
    rewrite (autocomplete_no_candidates q "a" "albums" w response data auto) by assumption.
    reflexivity.
Qed.
End NoResult.

Lemma search_without_candidates_witness :
  searchSongs (H := Sample.runtime) Sample.net (JStr "nothing") JUndefined JUndefined []
    Sample.empty_world
  = (Throw (DisTuneError "BANDCAMP_PLUGIN_SEARCH_ERROR"
              [JStr (message (H := Sample.runtime) (NO_RESULT "nothing" "tracks"))]),
     mkWorld [SearchRequest "nothing" "t"] []).
Proof.
  refine (proj1 (search_without_candidates (H := Sample.runtime) Sample.net
                   "nothing" JUndefined JUndefined [] Sample.empty_world
                   {| resp_ok := true; resp_status := 200; resp_statusText := "OK";
                      resp_body := Sample.nothing_found_text |}
                   (Sample.results_value [])
                   (Sample.obj [("results", JArr [])]) "t" _ _ _ _ _) eq_refl).
  - reflexivity.
  - reflexivity.
  - vm_compute. reflexivity.
  - vm_compute. reflexivity.
  - left. vm_compute. reflexivity.
Defined.

(** C4. As the claim has it, it fails: the endpoint answers the query with an
    empty result list, the [BANDCAMP_PLUGIN_NO_RESULT] error is thrown
    inside the [try] block, and the caller of [searchSongs] and of
    [searchAlbums] catches an error whose code is
    [BANDCAMP_PLUGIN_SEARCH_ERROR]. *)
Lemma search_no_result_is_rewrapped :
  exists w',
    autocomplete (H := Sample.runtime) Sample.net "nothing" "t" "tracks" Sample.empty_world
    = (Throw (DisTuneError "BANDCAMP_PLUGIN_NO_RESULT"
                [JStr ("Cannot find any " +:+ Sample.quoted "nothing"
                       +:+ " tracks on Bandcamp!")]), w') /\
    searchSongs (H := Sample.runtime) Sample.net (JStr "nothing") JUndefined JUndefined []
      Sample.empty_world
    = (Throw (DisTuneError "BANDCAMP_PLUGIN_SEARCH_ERROR"
                [JStr ("Cannot find any " +:+ Sample.quoted "nothing"
                       +:+ " tracks on Bandcamp!")]), w') /\
    searchAlbums (H := Sample.runtime) Sample.net (JStr "nothing") JUndefined JUndefined []
      Sample.empty_world
    = (Throw (DisTuneError "BANDCAMP_PLUGIN_SEARCH_ERROR"
                [JStr ("Cannot find any " +:+ Sample.quoted "nothing"
                       +:+ " albums on Bandcamp!")]),
       mkWorld [SearchRequest "nothing" "a"] []) /\
    "BANDCAMP_PLUGIN_SEARCH_ERROR" <> "BANDCAMP_PLUGIN_NO_RESULT".
Proof. eexists. vm_compute. repeat split. discriminate. Qed.

(** ** Album assembly *)

Lemma mapM_Result_Forall2 {A B} (f : A -> Result B) (R : A -> B -> Prop) (l : list A) :
  Forall (fun x => exists y, f x = Ok y /\ R x y) l ->
  exists l', mapM f l = Ok l' /\ Forall2 R l l'.
Proof.
  induction 1 as [|x l (y & Hy & HR) _ (l' & Hl' & HF)]; simpl.
  - exists []. split; [reflexivity | constructor].
  - exists (y :: l'). rewrite Hy. simpl. rewrite Hl'. split; [reflexivity|].
    constructor; assumption.
Qed.

Lemma mapM_Result_compose {A B C} (f : A -> Result B) (g : B -> Result C)
    (l : list A) (l2 : list C) :
  mapM (fun x => y ← f x; g y) l = Ok l2 ->
  exists l1, mapM f l = Ok l1 /\ mapM g l1 = Ok l2.
Proof.
  revert l2. induction l as [|x l IH]; intros l2; simpl.
  - intros [= <-]. exists []. split; reflexivity.
  - destruct (f x) as [y|e] eqn:Hy; simpl; [|discriminate].
    destruct (g y) as [z|e] eqn:Hz; simpl; [|discriminate].
    destruct (mapM _ l) as [rest|e] eqn:Hrest; simpl; [|discriminate].
    intros [= <-]. destruct (IH rest eq_refl) as (l1 & Hl1 & Hrest').
    exists (y :: l1). rewrite Hl1. simpl. rewrite Hz. simpl. rewrite Hrest'.
    split; reflexivity.
Qed.

Lemma filterR_total {A} (p : A -> Result bool) (q : A -> bool) (l : list A) :
  Forall (fun x => p x = Ok (q x)) l -> filterR p l = Ok (List.filter q l).
Proof.
  induction 1 as [|x l Hx _ IH]; simpl; [reflexivity|].
  rewrite Hx, IH. simpl. destruct (q x); reflexivity.
Qed.

Lemma stream_of_file (t : jsval) (u : string) :
  stream_of t = JStr u -> getProp (getPropOpt t "file") "mp3-128" = Ok (JStr u).
Proof.
  intros Hu. unfold stream_of in Hu. rewrite getProp_defined, Hu; [reflexivity|].
  destruct (getPropOpt t "file"); simpl in *; congruence.
Qed.

Section AlbumAssembly.
Context `{Platform}.

Lemma toStringOpt_printable (v : jsval) :
  unprintable v = false -> exists id_text, toStringOpt v = Ok id_text.
Proof. intros Hv. unfold toStringOpt. rewrite Hv. destruct v; eexists; reflexivity. Qed.

Lemma toStringOpt_unprintable (v : jsval) :
  unprintable v = true -> exists m, toStringOpt v = Throw (TypeError m).
Proof.
  intros Hv. unfold toStringOpt. rewrite Hv.
  destruct v; try discriminate Hv; eexists; reflexivity.
Qed.

Lemma interpolate_printable (v : jsval) :
  unprintable v = false -> exists slug, interpolate v = Ok slug.
Proof. intros Hv. unfold interpolate. rewrite Hv. destruct v; eexists; reflexivity. Qed.

Lemma interpolate_unprintable (v : jsval) :
  unprintable v = true -> exists m, interpolate v = Throw (TypeError m).
Proof.
  intros Hv. unfold interpolate. rewrite Hv.
  destruct v; try discriminate Hv; eexists; reflexivity.
Qed.

Lemma mapM_Result_throw {A B} (f : A -> Result B) (P : exn -> Prop) (l : list A) :
  Forall (fun x => forall e, f x = Throw e -> P e) l ->
  Exists (fun x => exists e, f x = Throw e) l ->
  exists e, mapM f l = Throw e /\ P e.
Proof.
  induction 1 as [|x l Hx _ IH]; intros Hex; [inversion Hex|]. simpl.
  destruct (f x) as [y|e] eqn:Hy; simpl.
  - inversion Hex as [? ? [e He]|? ? Hrest]; subst; [congruence|].
    destruct (IH Hrest) as (e & -> & He). exists e. split; [reflexivity | exact He].
  - exists e. split; [reflexivity | apply Hx; reflexivity].
Qed.

Lemma hasStream_qualifies (t : jsval) :
  nullish t = false -> hasStream t = Ok (qualifies t).
Proof.
  intros Ht. unfold hasStream, mp3_128_of. rewrite getProp_defined by assumption.
  reflexivity.
Qed.

Lemma newBandcampSong_string (info : BandcampTrackInfo) (options : jsval)
    (u page : string) :
  ti_streamUrl info = JStr u -> u <> EmptyString -> ti_url info = JStr page ->
  exists s,
    newBandcampSong info options = Ok s /\
    song_name s = ti_title info /\
    song_streamUrl s = JStr (if has_scheme u then u else "https:" +:+ u) /\
    song_id s = ti_id info /\
    song_trackNumber s = ti_trackNumber info.
Proof.
  intros Hu Hne Hpage. unfold newBandcampSong, finalStreamUrl. rewrite Hu, Hpage.
  assert (truthy (JStr u) = true) as -> by (destruct u; [congruence | reflexivity]).
  simpl. destruct (split_first page "/track/"); simpl; eexists; repeat split.
Qed.

Lemma albumTrack_entry (data artist thumbnail : jsval) (page : string) (t : jsval) :
  nullish data = false -> entry_shaped t -> qualifies t = true ->
  exists info u trackPage,
    albumTrack data artist thumbnail (JStr page) t = Ok info /\
    stream_of t = JStr u /\ u <> EmptyString /\
    ti_streamUrl info = JStr u /\ ti_url info = JStr trackPage /\
    ti_title info = getPropOpt t "title" /\
    (exists id_text,
       toStringOpt (getPropOpt t "track_id") = Ok id_text /\
       ti_id info = js_or id_text (getPropOpt t "title_link")) /\
    ti_trackNumber info = getPropOpt t "track_num".
Proof.
  intros Hdata [Ht Hshape] Hq. destruct (Hshape Hq) as ([u Hu] & Hid & Hlink).
  pose proof (stream_of_file t u Hu) as Hmp3.
  assert (Hne : u <> EmptyString).
  { intros ->. unfold qualifies in Hq. rewrite Hu in Hq. discriminate Hq. }
  destruct (toStringOpt_printable _ Hid) as [id_text Hid_text].
  destruct (interpolate_printable _ Hlink) as [slug Hslug].
  unfold albumTrack. rewrite !(getProp_defined t) by assumption.
  rewrite (getProp_defined data) by assumption. simpl. rewrite Hid_text. simpl.
  destruct (truthy (getPropOpt t "title_link")); simpl; rewrite ?Hslug; simpl;
    rewrite Hmp3; simpl; eexists _, u, _; repeat split; try assumption;
    exists id_text; split; reflexivity.
Qed.

(** C2. A page carries a record whose [trackinfo] is a list of entries of
    the shape above and whose album id, where it has one, converts to a
    string, and is assembled for an album URL. The album's songs
    are the entries that possess an [mp3-128] stream URL, one song for
    each, in the order of the record: there are as many songs as
    qualifying entries, and the first song is the one of the first
    qualifying entry. *)
Theorem parseAlbumPage_tracks (html page : string) (options : jsval)
    (blob : string) (data : jsval) (entries : list jsval) :
  match_attr tralbum_attr html = Some blob ->
  JSON_parse (decodeEntities blob) = Some data ->
  getProp data "trackinfo" = Ok (JArr entries) ->
  unprintable (getPropOpt (getPropOpt data "current") "id") = false ->
  Forall entry_shaped entries ->
  exists album,
    parseAlbumPage html (JStr page) options = Ok album /\
    Forall2 song_of_entry (List.filter qualifies entries) (album_songs album) /\
    length (album_songs album) = length (List.filter qualifies entries) /\
    (forall first rest,
       List.filter qualifies entries = first :: rest ->
       exists song songs,
         album_songs album = song :: songs /\ song_of_entry first song).
Proof.
  intros Hblob Hjson Htrackinfo Halbum_id Hshaped.
  assert (Hdata : nullish data = false) by (destruct data; simpl in *; congruence).
  destruct (toStringOpt_printable _ Halbum_id) as [album_id_text Halbum_id_text].
  assert (Hretained : filterR hasStream entries = Ok (List.filter qualifies entries)).
  { apply filterR_total. eapply Forall_impl; [exact Hshaped|].
    intros t [Ht _]. apply hasStream_qualifies, Ht. }
  set (artist := js_or (getPropOpt data "artist") (JStr (extractArtistFromMeta html))).
  set (thumbnail := js_or (js_or (getPropOpt data "artFullsizeUrl")
                                 (getPropOpt data "artThumbURL"))
                          (extractThumbnailFromMeta html)).
  destruct (mapM_Result_Forall2
              (fun t => info ← albumTrack data artist thumbnail (JStr page) t;
                        newBandcampSong info options)
              song_of_entry (List.filter qualifies entries)) as (songs & Hsongs & Hrel).
  { apply List.Forall_forall. intros t Hin. apply List.filter_In in Hin as [Hin Hq].
    rewrite List.Forall_forall in Hshaped.
    destruct (albumTrack_entry data artist thumbnail page t Hdata (Hshaped t Hin) Hq)
      as (info & u & trackPage & Hinfo & Hu & Hne & Hstream & Hurl & Htitle & Hid & Hnum).
    destruct (newBandcampSong_string info options u trackPage Hstream Hne Hurl)
      as (s & Hs & Hname & Hsu & Hsid & Hsnum).
    destruct Hid as (id_text & Hid_text & Hid).
    exists s. rewrite Hinfo. simpl. split; [exact Hs|].
    unfold song_of_entry. rewrite Hname, Hsid, Hsnum, Htitle, Hid, Hnum.
    split; [reflexivity|]. split; [exists u; split; assumption|].
    split; [|reflexivity]. exists id_text. split; [assumption | reflexivity]. }
  destruct (mapM_Result_compose _ _ _ _ Hsongs) as (tracks & Htracks & Hbuilt).
  eexists. split.
  - unfold parseAlbumPage, parse_json. rewrite Hblob, Hjson. simpl.
    assert (Hti : getPropOpt data "trackinfo" = JArr entries).
    { rewrite getProp_defined in Htrackinfo by assumption. congruence. }
    rewrite !(getProp_defined data) by assumption. simpl.
    rewrite Hti. simpl. rewrite Hretained. simpl.
    fold artist thumbnail. rewrite Htracks. simpl. rewrite Halbum_id_text. simpl.
    unfold newBandcampAlbum. simpl. rewrite Hbuilt. simpl. reflexivity.
  - simpl. split; [exact Hrel|]. split.
    + symmetry. eapply Forall2_length, Hrel.
    + intros first rest Hfirst. rewrite Hfirst in Hrel.
      inversion Hrel as [|? song ? songs' Hfs _]; subst. exists song, songs'.
      split; [reflexivity | exact Hfs].
Qed.
End AlbumAssembly.

Lemma parseAlbumPage_tracks_witness :
  exists album,
    parseAlbumPage (H := Sample.runtime) (Sample.page_with Sample.album_text)
      (JStr Sample.album_url) (JObj ∅) = Ok album /\
    Forall2 (song_of_entry (H := Sample.runtime))
      (List.filter qualifies Sample.album_entries) (album_songs album) /\
    length (album_songs album) = length (List.filter qualifies Sample.album_entries) /\
    (forall first rest,
       List.filter qualifies Sample.album_entries = first :: rest ->
       exists song songs,
         album_songs album = song :: songs /\
         song_of_entry (H := Sample.runtime) first song).
Proof.
  apply (parseAlbumPage_tracks (H := Sample.runtime) (Sample.page_with Sample.album_text)
           Sample.album_url (JObj ∅) (htmlEncode Sample.album_text) Sample.album_value
           Sample.album_entries).
  - vm_compute. reflexivity.
  - vm_compute. reflexivity.
  - vm_compute. reflexivity.
  - vm_compute. reflexivity.
  - unfold Sample.album_entries.
    repeat (apply List.Forall_cons;
            [split; [reflexivity|]; intros Hq;
             first [ vm_compute in Hq; discriminate Hq
                   | split; [eexists; vm_compute; reflexivity
                            | split; vm_compute; reflexivity] ] |]).
    apply List.Forall_nil.
Defined.

(** On the sample album page: three entries, two with a stream, two songs,
    in the order of the page. *)
Example parseAlbumPage_sample :
  (album_songs <$> (match parseAlbumPage (H := Sample.runtime)
                            (Sample.page_with Sample.album_text)
                            (JStr Sample.album_url) (JObj ∅) with
                    | Ok album => Some album
                    | Throw _ => None
                    end)) ≫= (fun songs => Some (map song_name songs))
  = Some [JStr "One"; JStr "Two"].
Proof. vm_compute. reflexivity. Qed.

(** ** [Promise.all] *)

Lemma concat_map_Permutation {A B} (f : A -> list B) (l k : list A) :
  l ≡ₚ k -> concat (map f l) ≡ₚ concat (map f k).
Proof.
  induction 1 as [|x l k _ IH|x y l|l k m _ IH1 _ IH2]; simpl.
  - reflexivity.
  - rewrite IH. reflexivity.
  - rewrite !app_assoc. f_equiv. apply Permutation_app_comm.
  - etransitivity; eassumption.
Qed.

Lemma map_lookup_seq {A B} (f : A -> B) (d : B) (l : list A) :
  map (fun i => default d (f <$> l !! i)) (seq 0 (length l)) = map f l.
Proof.
  induction l as [|x l IH]; [reflexivity|].
  cbn [length seq map]. f_equal. rewrite <- seq_shift, map_map. exact IH.
Qed.

Section PromiseAll.
Context {A : Type} `{Inhabited A}.
Variables (tasks : list (Task A)) (vals : list A).
Hypothesis fulfilled : Forall2 (fun t v => (run_task t).2 = Ok v) tasks vals.

Lemma joining_settle (order : list nat) (st : Join A * list LogEntry) (i : nat) :
  joining tasks vals order st ->
  exists order',
    joining tasks vals order' (settle tasks st i) /\
    (forall k, k ∈ order -> k ∈ order') /\
    (i < length tasks -> i ∈ order').
Proof using fulfilled.
  intros (Hnodup & Hset & Hbound & Hlen & Hrej & Hvals & Hout).
  unfold settle. destruct (decide (i ∈ settled st.1)) as [Hin|Hnotin].
  { exists order. split; [repeat split; try assumption; apply Hset|].
    split; [auto|]. intros _. apply Hset, Hin. }
  destruct (tasks !! i) as [t|] eqn:Ht.
  2:{ exists order. split; [repeat split; try assumption; apply Hset|].
      split; [auto|]. intros Hi. apply lookup_ge_None in Ht. lia. }
  destruct (Forall2_lookup_l _ _ _ _ _ fulfilled Ht) as (v & Hv & Hrun).
  pose proof (lookup_lt_Some _ _ _ Ht) as Hi.
  destruct (run_task t) as [out r] eqn:Hrt. simpl in Hrun. subst r.
  exists (order ++ [i]). split; [|split].
  - unfold joining. cbn [fst snd values settled rejection].
    assert (Hfresh : i ∉ order) by (intros Hio; apply Hnotin, Hset, Hio).
    repeat split.
    + apply NoDup_app. split; [assumption|]. split; [|apply NoDup_singleton].
      intros k Hk ->%list_elem_of_singleton. contradiction.
    + rewrite elem_of_app, list_elem_of_singleton, elem_of_union, elem_of_singleton.
      intros [Hk | ->]; [right; apply Hset, Hk | left; reflexivity].
    + rewrite elem_of_app, list_elem_of_singleton, elem_of_union, elem_of_singleton.
      intros [-> | Hk]; [right; reflexivity | left; apply Hset, Hk].
    + intros k [Hk | ->%list_elem_of_singleton]%elem_of_app; [auto | assumption].
    + rewrite length_insert. assumption.
    + assumption.
    + intros k [Hk | ->%list_elem_of_singleton]%elem_of_app.
      * rewrite list_lookup_insert_ne by (intros ->; contradiction). auto.
      * rewrite list_lookup_insert_eq by lia. symmetry. assumption.
    + rewrite map_app, concat_app, Hout. simpl. rewrite app_nil_r.
      f_equal. unfold task_lines. rewrite Ht. simpl. rewrite Hrt. reflexivity.
  - intros k Hk. apply elem_of_app. left. assumption.
  - intros _. apply elem_of_app. right. apply list_elem_of_singleton. reflexivity.
Qed.

Lemma joining_foldl (todo : list nat) (order : list nat) (st : Join A * list LogEntry) :
  joining tasks vals order st ->
  exists order',
    joining tasks vals order' (foldl (settle tasks) st todo) /\
    (forall k, k ∈ order -> k ∈ order') /\
    (forall i, i ∈ todo -> i < length tasks -> i ∈ order').
Proof using fulfilled.
  revert order st. induction todo as [|i todo IH]; intros order st Hj; simpl.
  - exists order. split; [assumption|]. split; [auto|]. intros i Hi. inversion Hi.
  - destruct (joining_settle order st i Hj) as (order1 & Hj1 & Hsub1 & Hi1).
    destruct (IH order1 _ Hj1) as (order2 & Hj2 & Hsub2 & Htodo).
    exists order2. split; [assumption|]. split; [auto|].
    intros k [-> | Hk]%elem_of_cons Hlt; [auto | apply Htodo; assumption].
Qed.

(** Whatever the order in which the promises settle, [Promise.all]
    fulfils with the values in the order of the promises, and the console
    holds the lines of every promise. *)
Lemma promise_all_fulfilled (sched : list nat) (w : World) :
  exists out,
    promise_all sched tasks w
    = (Ok vals, {| requests := requests w; console := console w ++ out |}) /\
    out ≡ₚ concat (map (fun t => (run_task t).1) tasks).
Proof using fulfilled.
  unfold promise_all.
  destruct (joining_foldl (sched ++ seq 0 (length tasks)) []
              (mkJoin (replicate (length tasks) inhabitant) ∅ None, []))
    as (order & Hj & _ & Hall).
  { repeat split; simpl; try (intros; exfalso; set_solver).
    - constructor.
    - apply length_replicate. }
  destruct (foldl _ _ _) as [j out].
  destruct Hj as (Hnodup & Hset & Hbound & Hlen & Hrej & Hvals & Hout).
  simpl in *. exists out. rewrite Hrej.
  assert (Hperm : order ≡ₚ seq 0 (length tasks)).
  { apply NoDup_Permutation; [assumption | apply NoDup_seq |].
    intros i. rewrite elem_of_seq. split.
    - intros Hi. specialize (Hbound i Hi). lia.
    - intros Hi. apply Hall; [|lia]. apply elem_of_app. right.
      apply elem_of_seq. lia. }
  assert (Hvalues : values j = vals).
  { apply list_eq. intros i. destruct (decide (i < length tasks)) as [Hi|Hi].
    - apply Hvals. rewrite Hperm. apply elem_of_seq. lia.
    - rewrite !lookup_ge_None_2; [reflexivity | |lia].
      rewrite <- (Forall2_length _ _ _ fulfilled). lia. }
  rewrite Hvalues. split; [reflexivity|].
  rewrite Hout, (concat_map_Permutation _ _ _ Hperm).
  unfold task_lines. rewrite map_lookup_seq. reflexivity.
Qed.
End PromiseAll.

(** ** The search fan-out *)

Lemma filter_isTruthy_omap {A} (xs : list (option A)) : filter_isTruthy xs = omap id xs.
Proof. induction xs as [|[x|] xs IH]; simpl; [reflexivity | f_equal; exact IH | exact IH]. Qed.

Lemma filterR_Forall {A} (p : A -> Result bool) (l l' : list A) :
  filterR p l = Ok l' -> Forall (fun x => p x = Ok true) l'.
Proof.
  revert l'. induction l as [|x l IH]; intros l'; simpl.
  - intros [= <-]. constructor.
  - destruct (p x) as [[|]|e] eqn:Hx; simpl; try discriminate;
      destruct (filterR p l) as [rest|e]; simpl; try discriminate; intros [= <-].
    + constructor; [assumption | apply IH; reflexivity].
    + apply IH. reflexivity.
Qed.

Lemma bind_M {A B} (m : M A) (f : A -> M B) (w : World) :
  (m ≫= f) w
  = match m w with
    | (Ok a, w') => f a w'
    | (Throw e, w') => (Throw e, w')
    end.
Proof. reflexivity. Qed.

Lemma mapM_M_cons {A B} (f : A -> M B) (x : A) (l : list A) (w : World) :
  mapM f (x :: l) w
  = match f x w with
    | (Ok y, w') =>
        match mapM f l w' with
        | (Ok k, w'') => (Ok (y :: k), w'')
        | (Throw e, w'') => (Throw e, w'')
        end
    | (Throw e, w') => (Throw e, w')
    end.
Proof. reflexivity. Qed.

Lemma omap_cons_list {A B} (f : A -> option B) (x : A) (l : list A) :
  omap f (x :: l) = match f x with
                    | Some y => y :: omap f l
                    | None => omap f l
                    end.
Proof. reflexivity. Qed.

Lemma has_page_Some (c address : jsval) : pageUrlOf c = Some address -> has_page c = true.
Proof. intros Hc. unfold has_page. rewrite Hc. reflexivity. Qed.

Lemma has_page_None (c : jsval) : pageUrlOf c = None -> has_page c = false.
Proof. intros Hc. unfold has_page. rewrite Hc. reflexivity. Qed.

Section FanOut.
Context `{Platform} (net : Network) {A : Type}.
Context (label : string) (parse : string -> jsval -> Con A).

(** The rest of a callback after its [await]: it fulfils with the entity
    or with [null], and writes what the parse wrote and, on a failure, the
    report of it. *)
Lemma awaiting_run (o : NetOutcome) (address : jsval) :
  let run := fetched parse o address in
  catching label (html ← pureC (page_text o);
                  entity ← parse html address;
                  mret (Some entity))
  = (run.1 ++ match run.2 with
              | Ok _ => []
              | Throw e => [LogError label e]
              end,
     Ok match run.2 with
        | Ok entity => Some entity
        | Throw _ => None
        end).
Proof.
  unfold fetched, catching, pureC, mbind, Con_bind, mret, Con_ret.
  destruct (page_text o) as [html|e]; simpl; [|reflexivity].
  destruct (parse html address) as [out [entity|e]]; simpl; rewrite ?app_nil_r; reflexivity.
Qed.

Lemma candidateTask_run (c : jsval) (w : World) :
  nullish c = false ->
  candidateTask net label parse c w
  = match pageUrlOf c with
    | None => (Ok (Settled None), w)
    | Some address =>
        (Ok (Awaiting (catching label
                         (html ← pureC (page_text (net (length (requests w))
                                                     (PageRequest address)));
                          entity ← parse html address;
                          mret (Some entity)))),
         {| requests := requests w ++ [PageRequest address]; console := console w |})
    end.
Proof.
  intros Hc. unfold candidateTask, pageUrlOf. rewrite getProp_defined by assumption.
  destruct (truthy (getPropOpt c "item_url_path")); reflexivity.
Qed.

(** The callbacks run one after the other up to their [await]: the page
    requests leave in the order of the candidates, one for each candidate
    that has a page address, and nothing is written. *)
Lemma dispatch_run (candidates : list jsval) (w : World) :
  Forall (fun c => nullish c = false) candidates ->
  exists tasks,
    mapM (candidateTask net label parse) candidates w
    = (Ok tasks,
       {| requests := requests w ++ map PageRequest (omap pageUrlOf candidates);
          console := console w |}) /\
    Forall2 (fun t v => (run_task t).2 = Ok v) tasks
      (candidateOutcomes net parse (length (requests w)) candidates) /\
    concat (map (fun t => (run_task t).1) tasks)
    = candidateLines net label parse (length (requests w)) candidates.
Proof.
  intros Hcs. revert w. induction Hcs as [|c cs Hc _ IH]; intros w.
  - exists []. simpl. rewrite app_nil_r. destruct w. repeat split. constructor.
  - rewrite mapM_M_cons, candidateTask_run by assumption.
    cbn [candidateOutcomes candidateLines]. rewrite omap_cons_list.
    destruct (pageUrlOf c) as [address|].
    + set (w1 := {| requests := requests w ++ [PageRequest address];
                    console := console w |}).
      destruct (IH w1) as (tasks & Hrun & Hvals & Hlines).
      assert (Hn : length (requests w1) = S (length (requests w)))
        by (simpl; rewrite length_app; simpl; lia).
      rewrite Hn in Hvals, Hlines.
      exists (Awaiting (catching label
                (html ← pureC (page_text (net (length (requests w)) (PageRequest address)));
                 entity ← parse html address;
                 mret (Some entity))) :: tasks).
      rewrite Hrun.
      split; [simpl; rewrite <- app_assoc; reflexivity|]. split.
      * constructor; [|exact Hvals]. cbn [run_task]. rewrite awaiting_run. reflexivity.
      * cbn [map concat run_task]. rewrite awaiting_run, Hlines. reflexivity.
    + destruct (IH w) as (tasks & Hrun & Hvals & Hlines).
      exists (Settled None :: tasks). rewrite Hrun.
      split; [reflexivity|]. split.
      * constructor; [reflexivity | exact Hvals].
      * exact Hlines.
Qed.

(** The fan-out never throws. Its result is the entities of the candidates
    in the order of the candidates, whatever the order in which the fetches
    complete. *)
Lemma fanOut_run (sched : list nat) (candidates : list jsval) (w : World) :
  Forall (fun c => nullish c = false) candidates ->
  exists out,
    fanOut net label parse sched candidates w
    = (Ok (omap id (candidateOutcomes net parse (length (requests w)) candidates)),
       {| requests := requests w ++ map PageRequest (omap pageUrlOf candidates);
          console := console w ++ out |}) /\
    out ≡ₚ candidateLines net label parse (length (requests w)) candidates.
Proof.
  intros Hcs. destruct (dispatch_run candidates w Hcs) as (tasks & Hrun & Hvals & Hlines).
  destruct (promise_all_fulfilled tasks _ Hvals sched
              {| requests := requests w ++ map PageRequest (omap pageUrlOf candidates);
                 console := console w |}) as (out & Hall & Hout).
  exists out. split; [|rewrite <- Hlines; exact Hout].
  unfold fanOut. rewrite bind_M, Hrun, bind_M, Hall. unfold mret, M_ret.
  rewrite filter_isTruthy_omap. reflexivity.
Qed.

(** Candidates without a page address leave no trace: outcomes, requests
    and console lines are those of the candidates that have one. *)
Lemma candidates_paged (n : nat) (candidates : list jsval) :
  omap id (candidateOutcomes net parse n candidates)
  = omap id (candidateOutcomes net parse n (List.filter has_page candidates)) /\
  omap pageUrlOf candidates = omap pageUrlOf (List.filter has_page candidates) /\
  candidateLines net label parse n candidates
  = candidateLines net label parse n (List.filter has_page candidates).
Proof.
  revert n. induction candidates as [|c cs IH]; intros n; [repeat split|].
  cbn [List.filter]. destruct (pageUrlOf c) as [address|] eqn:Hc.
  - rewrite (has_page_Some c address Hc).
    destruct (IH (S n)) as (IH1 & IH2 & IH3).
    cbn [candidateOutcomes candidateLines]. rewrite ?Hc, !omap_cons_list, ?Hc, IH1, IH2, IH3.
    repeat split.
  - rewrite (has_page_None c Hc).
    destruct (IH n) as (IH1 & IH2 & IH3).
    cbn [candidateOutcomes candidateLines]. rewrite ?Hc, ?omap_cons_list, ?Hc.
    repeat split; assumption.
Qed.
End FanOut.

Lemma omap_id_sublist {A} (l : list (option A)) : (Some <$> omap id l) `sublist_of` l.
Proof.
  induction l as [|[x|] l IH]; rewrite ?omap_cons_list; simpl.
  - constructor.
  - apply sublist_skip. exact IH.
  - apply sublist_cons. exact IH.
Qed.

Lemma omap_id_length {A} (l : list (option A)) :
  length (omap id l) + length (List.filter (fun o => negb (isTruthy o)) l) = length l.
Proof.
  induction l as [|[x|] l IH]; rewrite ?omap_cons_list; simpl; [reflexivity | lia | lia].
Qed.

Lemma omap_id_none {A} (l : list (option A)) :
  Forall (fun o => o = None) l -> omap id l = [].
Proof. induction 1 as [|o l -> _ IH]; [reflexivity|]. rewrite omap_cons_list. exact IH. Qed.

Lemma Forall_take {A} (P : A -> Prop) (n : nat) (l : list A) :
  Forall P l -> Forall P (take n l).
Proof. intros Hl. revert n. induction Hl; intros [|n]; simpl; constructor; auto. Qed.

Section Search.
Context `{Platform} (net : Network).

(** A search that passes its first half has sent the search request and
    nothing else, and each of its candidates is an object of the response. *)
Lemma autocomplete_ok (q kind noun : string) (w w1 : World) (results : list jsval) :
  autocomplete net q kind noun w = (Ok results, w1) ->
  Forall (fun c => nullish c = false) results /\
  w1 = {| requests := requests w ++ [SearchRequest q kind]; console := console w |}.
Proof.
  unfold autocomplete. rewrite bind_M. cbn [send].
  rewrite bind_M. unfold liftR at 1.
  destruct (response_of _) as [response|e]; [|discriminate].
  rewrite bind_M. unfold liftR at 1.
  destruct (parse_json _) as [data|e]; [|discriminate].
  rewrite bind_M. unfold liftR at 1.
  destruct (getProp data "auto") as [auto|e]; [|discriminate].
  destruct (negb (truthy _)); [discriminate|].
  rewrite bind_M. unfold liftR at 1.
  destruct (results ← getProp auto "results"; as_array results) as [all|e]; [|discriminate].
  rewrite bind_M. unfold liftR at 1.
  destruct (filterR (hasKind kind) all) as [kept|e] eqn:Hkept; [|discriminate].
  destruct (negb (truthy _)); [discriminate|].
  intros [= <- <-]. split; [|reflexivity].
  apply filterR_Forall in Hkept. eapply Forall_impl; [exact Hkept|].
  intros c Hc. unfold hasKind in Hc. destruct c; simpl in *; congruence.
Qed.

Lemma slice_limit_Forall (P : jsval -> Prop) (limit : jsval) (results : list jsval) :
  Forall P results -> Forall P (slice_limit limit results).
Proof. intros Hr. destruct limit; simpl; try assumption. apply Forall_take, Hr. Qed.

(** The [try] block of a search whose first half found candidates. *)
Lemma search_body_run {A} (q kind noun label : string) (parse : string -> jsval -> Con A)
    (limit : jsval) (sched : list nat) (handler : exn -> M (list A))
    (w w1 : World) (results : list jsval) :
  autocomplete net q kind noun w = (Ok results, w1) ->
  let candidates := slice_limit limit results in
  exists out,
    try_catch (results ← autocomplete net q kind noun;
               fanOut net label parse sched (slice_limit limit results)) handler w
    = (Ok (omap id (candidateOutcomes net parse (length (requests w1)) candidates)),
       {| requests := requests w1 ++ map PageRequest (omap pageUrlOf candidates);
          console := console w ++ out |}) /\
    out ≡ₚ candidateLines net label parse (length (requests w1)) candidates.
Proof.
  intros Hauto candidates. destruct (autocomplete_ok _ _ _ _ _ _ Hauto) as [Hobjects Hw1].
  destruct (fanOut_run net label parse sched candidates w1) as (out & Hrun & Hout).
  { apply slice_limit_Forall, Hobjects. }
  exists out. split; [|exact Hout].
  unfold try_catch. rewrite bind_M, Hauto. fold candidates. rewrite Hrun.
  rewrite Hw1. reflexivity.
Qed.

(** C1. A search whose first half found candidates dispatches the first
    [limit] of them. Each candidate comes to an entity or, when it has no
    page or its fetch or parse fails, to nothing; the search returns the
    entities in the order of the candidates, for every order [sched] in
    which the fetches complete, and it returns: a failing candidate never
    makes the search throw. The entities are a subsequence of the
    outcomes, as many as there are candidates less the failed ones, and
    when every candidate fails the result is the empty list. *)
Theorem search_results_in_candidate_order (q : string) (limit options : jsval)
    (sched : list nat) (w w1 : World) (results : list jsval) :
  let limit' := default_arg limit (of_int 10) in
  let options' := default_arg options (JObj ∅) in
  let candidates := slice_limit limit' results in
  invalid_limit limit' = false ->
  (autocomplete net q "t" "tracks" w = (Ok results, w1) ->
   let outcomes :=
     candidateOutcomes net (fun html trackUrl => parseTrackPage html trackUrl options')
       (length (requests w1)) candidates in
   exists songs w2,
     searchSongs net (JStr q) limit options sched w = (Ok songs, w2) /\
     songs = omap id outcomes /\
     (Some <$> songs) `sublist_of` outcomes /\
     length songs + length (List.filter (fun o => negb (isTruthy o)) outcomes)
     = length outcomes /\
     (Forall (fun o => o = None) outcomes -> songs = [])) /\
  (autocomplete net q "a" "albums" w = (Ok results, w1) ->
   let outcomes :=
     candidateOutcomes net
       (fun html albumUrl =>
          album ← pureC (parseAlbumPage html albumUrl options');
          mret (toAlbum album options'))
       (length (requests w1)) candidates in
   exists albums w2,
     searchAlbums net (JStr q) limit options sched w = (Ok albums, w2) /\
     albums = omap id outcomes /\
     (Some <$> albums) `sublist_of` outcomes /\
     length albums + length (List.filter (fun o => negb (isTruthy o)) outcomes)
     = length outcomes /\
     (Forall (fun o => o = None) outcomes -> albums = [])).
Proof.
  intros limit' options' candidates Hlimit. split; intros Hauto outcomes.
  - destruct (search_body_run q "t" "tracks" "Error fetching track:"
                (fun html trackUrl => parseTrackPage html trackUrl options') limit' sched
                (fun error => throw (DisTuneError "BANDCAMP_PLUGIN_SEARCH_ERROR"
                                       [JStr (message error)]))
                w w1 results Hauto) as (out & Hrun & _).
    eexists _, _. split; [|split; [reflexivity|split; [|split]]].
    + unfold searchSongs. fold limit' options'. rewrite Hlimit. exact Hrun.
    + apply omap_id_sublist.
    + apply omap_id_length.
    + apply omap_id_none.
  - destruct (search_body_run q "a" "albums" "Error fetching album:"
                (fun html albumUrl =>
                   album ← pureC (parseAlbumPage html albumUrl options');
                   mret (toAlbum album options')) limit' sched
                (fun error => throw (DisTuneError "BANDCAMP_PLUGIN_SEARCH_ERROR"
                                       [JStr (message error)]))
                w w1 results Hauto) as (out & Hrun & _).
    eexists _, _. split; [|split; [reflexivity|split; [|split]]].
    + unfold searchAlbums. fold limit' options'. rewrite Hlimit. exact Hrun.
    + apply omap_id_sublist.
    + apply omap_id_length.
    + apply omap_id_none.
Qed.

(** The same block, told of the candidates that have a page alone. *)
Lemma search_body_paged {A} (q kind noun label : string) (parse : string -> jsval -> Con A)
    (limit : jsval) (sched : list nat) (handler : exn -> M (list A))
    (w w1 : World) (results : list jsval) :
  autocomplete net q kind noun w = (Ok results, w1) ->
  let paged := List.filter has_page (slice_limit limit results) in
  exists out,
    try_catch (results ← autocomplete net q kind noun;
               fanOut net label parse sched (slice_limit limit results)) handler w
    = (Ok (omap id (candidateOutcomes net parse (S (length (requests w))) paged)),
       {| requests := requests w ++ SearchRequest q kind
                                    :: map PageRequest (omap pageUrlOf paged);
          console := console w ++ out |}) /\
    out ≡ₚ candidateLines net label parse (S (length (requests w))) paged.
Proof.
  intros Hauto paged.
  destruct (search_body_run q kind noun label parse limit sched handler w w1 results Hauto)
    as (out & Hrun & Hout).
  destruct (autocomplete_ok _ _ _ _ _ _ Hauto) as [_ Hw1].
  assert (Hn : length (requests w1) = S (length (requests w)))
    by (rewrite Hw1; simpl; rewrite length_app; simpl; lia).
  rewrite Hn in Hrun, Hout.
  destruct (candidates_paged net label parse (S (length (requests w)))
              (slice_limit limit results)) as (Hvals & Hurls & Hlines).
  fold paged in Hvals, Hurls, Hlines. rewrite Hvals, Hurls in Hrun. rewrite Hlines in Hout.
  exists out. split; [|exact Hout].
  etransitivity; [exact Hrun|]. rewrite Hw1. simpl. rewrite <- app_assoc. reflexivity.
Qed.

(** C9. A candidate whose [item_url_path] is absent is not among the
    candidates with a page, and the search is the search over those alone:
    its result is their entities, the requests it sends after the search
    request are their page requests, one each and in their order, and the
    lines it writes to the console are theirs, in the order in which the
    fetches complete. For the candidate without a page there is no request
    and no line. *)
Theorem search_skips_candidates_without_page (q : string) (limit options : jsval)
    (sched : list nat) (w w1 : World) (results : list jsval) :
  let limit' := default_arg limit (of_int 10) in
  let options' := default_arg options (JObj ∅) in
  let paged := List.filter has_page (slice_limit limit' results) in
  invalid_limit limit' = false ->
  (forall c props, c = JObj props -> props !! "item_url_path" = None -> c ∉ paged) /\
  (autocomplete net q "t" "tracks" w = (Ok results, w1) ->
   let parse := fun html trackUrl => parseTrackPage html trackUrl options' in
   exists out,
     searchSongs net (JStr q) limit options sched w
     = (Ok (omap id (candidateOutcomes net parse (S (length (requests w))) paged)),
        {| requests := requests w ++ SearchRequest q "t"
                                     :: map PageRequest (omap pageUrlOf paged);
           console := console w ++ out |}) /\
     out ≡ₚ candidateLines net "Error fetching track:" parse
              (S (length (requests w))) paged) /\
  (autocomplete net q "a" "albums" w = (Ok results, w1) ->
   let parse := fun html albumUrl =>
                  album ← pureC (parseAlbumPage html albumUrl options');
                  mret (toAlbum album options') in
   exists out,
     searchAlbums net (JStr q) limit options sched w
     = (Ok (omap id (candidateOutcomes net parse (S (length (requests w))) paged)),
        {| requests := requests w ++ SearchRequest q "a"
                                     :: map PageRequest (omap pageUrlOf paged);
           console := console w ++ out |}) /\
     out ≡ₚ candidateLines net "Error fetching album:" parse
              (S (length (requests w))) paged).
Proof.
  intros limit' options' paged Hlimit. split; [|split].
  - intros c props -> Habsent Hin.
    apply list_elem_of_In, List.filter_In in Hin as [_ Hpage].
    unfold has_page, pageUrlOf in Hpage. simpl in Hpage. rewrite Habsent in Hpage.
    discriminate Hpage.
  - intros Hauto parse. unfold searchSongs. fold limit' options'. rewrite Hlimit.
    exact (search_body_paged q "t" "tracks" _ parse limit' sched _ w w1 results Hauto).
  - intros Hauto parse. unfold searchAlbums. fold limit' options'. rewrite Hlimit.
    exact (search_body_paged q "a" "albums" _ parse limit' sched _ w w1 results Hauto).
Qed.
End Search.

(** The query [one] of the sample catalogue finds three track candidates:
    the first has a page, the page of the second is gone, the third has no
    page address. The fetches complete in the order 2, 0, 1. *)
Lemma search_results_in_candidate_order_witness :
  (exists songs w2,
     searchSongs (H := Sample.runtime) Sample.net (JStr "one") JUndefined JUndefined
       [2; 0; 1] Sample.empty_world = (Ok songs, w2) /\
     map song_name songs = [JStr "One"]) /\
  (exists albums w2,
     searchAlbums (H := Sample.runtime) Sample.net (JStr "one") JUndefined JUndefined
       [1; 0] Sample.empty_world = (Ok albums, w2) /\
     map album_name albums = [JStr "First"]).
Proof.
  split.
  - destruct (proj1 (search_results_in_candidate_order (H := Sample.runtime) Sample.net
                       "one" JUndefined JUndefined [2; 0; 1] Sample.empty_world
                       (mkWorld [SearchRequest "one" "t"] [])
                       (take 3 Sample.track_candidates) eq_refl))
      as (songs & w2 & Hrun & Hsongs & _).
    { vm_compute. reflexivity. }
    exists songs, w2. split; [exact Hrun|]. rewrite Hsongs. vm_compute. reflexivity.
  - destruct (proj2 (search_results_in_candidate_order (H := Sample.runtime) Sample.net
                       "one" JUndefined JUndefined [1; 0] Sample.empty_world
                       (mkWorld [SearchRequest "one" "a"] [])
                       Sample.album_candidates eq_refl))
      as (albums & w2 & Hrun & Halbums & _).
    { vm_compute. reflexivity. }
    exists albums, w2. split; [exact Hrun|]. rewrite Halbums. vm_compute. reflexivity.
Defined.

Lemma search_skips_candidates_without_page_witness :
  (Sample.candidate_value "t" "Nowhere" None 45
   ∉ List.filter has_page (take 3 Sample.track_candidates)) /\
  exists songs out,
    searchSongs (H := Sample.runtime) Sample.net (JStr "one") JUndefined JUndefined
      [2; 0; 1] Sample.empty_world
    = (Ok songs,
       {| requests := [SearchRequest "one" "t";
                       PageRequest (JStr Sample.track_url);
                       PageRequest (JStr Sample.gone_url)];
          console := out |}) /\
    out ≡ₚ [LogError "Error fetching track:" (Error "Failed to fetch page: 404 Not Found")].
Proof.
  pose proof (search_skips_candidates_without_page (H := Sample.runtime) Sample.net
                "one" JUndefined JUndefined [2; 0; 1] Sample.empty_world
                (mkWorld [SearchRequest "one" "t"] [])
                (take 3 Sample.track_candidates) eq_refl) as (Habsent & Htracks & _).
  split.
  - eapply Habsent; [reflexivity|]. vm_compute. reflexivity.
  - destruct Htracks as (out & Hrun & Hout); [vm_compute; reflexivity|].
    eexists _, out. split; [exact Hrun|]. exact Hout.
Defined.

(** ** The repository's own examples *)

(** The four links of the plugin's test of [validate]. *)
Example validate_test_links :
  validate (H := Sample.runtime) (JStr "https://artist.bandcamp.com/track/song-name") = true /\
  validate (H := Sample.runtime) (JStr "https://artist.bandcamp.com/album/album-name") = true /\
  validate (H := Sample.runtime) (JStr "https://not-bandcamp.com/track/song") = false /\
  validate (H := Sample.runtime) (JStr "not-a-url") = false.
Proof. vm_compute. repeat split. Qed.

(** A protocol-relative stream URL, the form the pages carry, is stored
    with its scheme, and [getStreamURL] returns it. *)
Example resolve_sample_track :
  exists song w1,
    resolve (H := Sample.runtime) Sample.net (JStr Sample.track_url) JUndefined
      Sample.empty_world = (Ok (ResolvedSong song), w1) /\
    song_name song = JStr "One" /\
    song_url song = JStr Sample.track_url /\
    getStreamURL song = Ok "https://t4.bcbits.com/stream/one".
Proof. do 2 eexists. vm_compute. repeat split. Qed.

(** * Further properties of the plugin *)

(** ** The attribute extraction *)

Lemma append_assoc_s (a b c : string) : (a +:+ b) +:+ c = a +:+ b +:+ c.
Proof. induction a as [|x a IH]; simpl; [reflexivity | rewrite IH; reflexivity]. Qed.

Lemma append_nil_r_s (a : string) : a +:+ EmptyString = a.
Proof. induction a as [|x a IH]; simpl; [reflexivity | rewrite IH; reflexivity]. Qed.

Lemma string_drop_app (a b : string) : string_drop (String.length a) (a +:+ b) = b.
Proof. induction a as [|x a IH]; simpl; [destruct b; reflexivity | exact IH]. Qed.

Lemma includes_dquote_cons (c : ascii) (s : string) :
  includes (String c s) dquote = false <->
  Ascii.eqb c "034"%char = false /\ includes s dquote = false.
Proof.
  cbn [includes]. rewrite orb_false_iff. unfold dquote.
  destruct (Ascii.eqb_spec c "034"%char) as [->|Hc].
  - split; [|intros [[=] _]]. intros [Hp _]. exfalso.
    apply not_true_iff_false in Hp. apply Hp, prefix_spec. exists s. reflexivity.
  - split; [intros [_ Hs]; split; [reflexivity | exact Hs]|].
    intros [_ Hs]. split; [|exact Hs]. apply prefix_other. exact Hc.
Qed.

Lemma span_unquoted_spec (s run rest : string) :
  span_unquoted s = (run, rest) ->
  s = run +:+ rest /\ includes run dquote = false /\
  (rest = EmptyString \/ exists r, rest = dquote +:+ r).
Proof.
  revert run rest. induction s as [|c s IH]; intros run rest; simpl.
  - intros [= <- <-]. repeat split. left. reflexivity.
  - destruct (Ascii.eqb_spec c "034"%char) as [->|Hc].
    + intros [= <- <-]. repeat split. right. exists s. reflexivity.
    + destruct (span_unquoted s) as [run' rest'] eqn:Hs. intros [= <- <-].
      destruct (IH run' rest' eq_refl) as (-> & Hrun & Hrest).
      split; [reflexivity|]. split; [|exact Hrest].
      apply includes_dquote_cons. split; [|exact Hrun].
      destruct (Ascii.eqb_spec c "034"%char); [contradiction | reflexivity].
Qed.

Lemma span_unquoted_app (v after : string) :
  includes v dquote = false -> span_unquoted (v +:+ dquote +:+ after) = (v, dquote +:+ after).
Proof.
  induction v as [|c v IH]; [reflexivity|].
  intros [Hc Hv]%includes_dquote_cons.
  change (String c v +:+ dquote +:+ after) with (String c (v +:+ dquote +:+ after)).
  cbn [span_unquoted]. rewrite Hc, (IH Hv). reflexivity.
Qed.

Lemma match_here_spec (lit s v : string) :
  match_here lit s = Some v <->
  v <> EmptyString /\ includes v dquote = false /\
  exists after, s = lit +:+ v +:+ dquote +:+ after.
Proof.
  unfold match_here. split.
  - destruct (String.prefix lit s) eqn:Hlit; [|discriminate].
    apply prefix_spec in Hlit as [r ->]. rewrite string_drop_app.
    destruct (span_unquoted r) as [run rest] eqn:Hr.
    destruct (span_unquoted_spec _ _ _ Hr) as (-> & Hrun & Hrest).
    destruct run as [|c run]; [discriminate|]. destruct rest as [|q rest]; [discriminate|].
    intros [= <-]. split; [discriminate|]. split; [exact Hrun|].
    destruct Hrest as [[=] | [after Hafter]]. exists after. rewrite Hafter. reflexivity.
  - intros (Hne & Hv & after & ->).
    assert (String.prefix lit (lit +:+ v +:+ dquote +:+ after) = true) as ->
      by (apply prefix_spec; eexists; reflexivity).
    rewrite string_drop_app, span_unquoted_app by assumption.
    destruct v; [congruence | reflexivity].
Qed.

Lemma match_attr_sound (lit s v : string) :
  match_attr lit s = Some v ->
  v <> EmptyString /\ includes v dquote = false /\
  exists before after, s = before +:+ lit +:+ v +:+ dquote +:+ after.
Proof.
  induction s as [|c s IH]; cbn [match_attr].
  - destruct (match_here lit EmptyString) as [u|] eqn:Hu; [|discriminate].
    intros [= ->]. apply match_here_spec in Hu as (Hne & Hv & after & Hs).
    repeat split; try assumption. exists EmptyString, after. exact Hs.
  - destruct (match_here lit (String c s)) as [u|] eqn:Hu.
    + intros [= ->]. apply match_here_spec in Hu as (Hne & Hv & after & Hs).
      repeat split; try assumption. exists EmptyString, after. exact Hs.
    + intros Hm. destruct (IH Hm) as (Hne & Hv & before & after & ->).
      repeat split; try assumption. exists (String c before), after. reflexivity.
Qed.

Lemma match_attr_complete (lit before v after : string) :
  v <> EmptyString -> includes v dquote = false ->
  exists u, match_attr lit (before +:+ lit +:+ v +:+ dquote +:+ after) = Some u.
Proof.
  intros Hne Hv. induction before as [|c before IH].
  - exists v. change (EmptyString +:+ ?x) with x.
    assert (Hm : match_here lit (lit +:+ v +:+ dquote +:+ after) = Some v)
      by (apply match_here_spec; repeat split; try assumption; eexists; reflexivity).
    destruct (lit +:+ v +:+ dquote +:+ after); cbn [match_attr]; rewrite Hm; reflexivity.
  - change (String c before +:+ ?x) with (String c (before +:+ x)). cbn [match_attr].
    destruct (match_here lit _) as [u|]; [exists u; reflexivity | exact IH].
Qed.

(** The page scan [html.match] with the pattern of an attribute: what it
    captures is a value of the attribute as the page has it, not empty and
    without a double quote; and it finds nothing exactly when the page has
    no such attribute with such a value and a closing quote. *)
Theorem match_attr_spec (lit s : string) :
  (forall v, match_attr lit s = Some v ->
     v <> EmptyString /\ includes v dquote = false /\
     exists before after, s = before +:+ lit +:+ v +:+ dquote +:+ after) /\
  (match_attr lit s = None <->
   ~ exists before v after,
       v <> EmptyString /\ includes v dquote = false /\
       s = before +:+ lit +:+ v +:+ dquote +:+ after).
Proof.
  split; [intros v; apply match_attr_sound|]. split.
  - intros Hnone (before & v & after & Hne & Hv & ->).
    destruct (match_attr_complete lit before v after Hne Hv) as [u Hu]. congruence.
  - intros Hno. destruct (match_attr lit s) as [v|] eqn:Hm; [|reflexivity].
    exfalso. apply Hno. destruct (match_attr_sound _ _ _ Hm) as (Hne & Hv & before & after & ->).
    exists before, v, after. auto.
Qed.

Lemma match_attr_absent (lit s : string) :
  includes s lit = false -> match_attr lit s = None.
Proof.
  intros Hs. destruct (match_attr lit s) as [v|] eqn:Hm; [|reflexivity].
  exfalso. destruct (match_attr_sound _ _ _ Hm) as (_ & _ & before & after & ->).
  apply not_true_iff_false in Hs. apply Hs, includes_spec.
  exists before, (v +:+ dquote +:+ after). reflexivity.
Qed.

Lemma match_attr_spec_witness :
  htmlEncode Sample.track_text <> EmptyString /\
  includes (htmlEncode Sample.track_text) dquote = false /\
  exists before after,
    Sample.page_with Sample.track_text
    = before +:+ tralbum_attr +:+ htmlEncode Sample.track_text +:+ dquote +:+ after.
Proof.
  apply (proj1 (match_attr_spec tralbum_attr (Sample.page_with Sample.track_text))).
  vm_compute. reflexivity.
Defined.

(** ** What the constructors keep *)

Lemma has_scheme_carries (u : string) :
  let stored := if has_scheme u then u else "https:" +:+ u in
  startsWith stored "http://" = true \/ startsWith stored "https:" = true.
Proof.
  unfold has_scheme. destruct (startsWith u "http://") eqn:Hhttp; simpl; [left; exact Hhttp|].
  destruct (startsWith u "https://") eqn:Hhttps;
    [|right; apply prefix_spec; exists u; reflexivity].
  right. unfold startsWith in *. apply prefix_spec in Hhttps as [r ->].
  apply prefix_spec. exists ("//" +:+ r). reflexivity.
Qed.

Lemma finalStreamUrl_truthy (v stored : jsval) :
  finalStreamUrl v = Ok stored -> truthy v = true ->
  exists u, v = JStr u /\ u <> EmptyString /\
            stored = JStr (if has_scheme u then u else "https:" +:+ u).
Proof.
  unfold finalStreamUrl. intros Hrun Hv. rewrite Hv in Hrun.
  destruct v as [| |b|n|u|l|o]; try discriminate. injection Hrun as <-.
  exists u. split; [reflexivity|]. split; [|reflexivity].
  intros ->. discriminate Hv.
Qed.

Lemma newBandcampSong_ok (info : BandcampTrackInfo) (options : jsval) (s : BandcampSong) :
  newBandcampSong info options = Ok s ->
  finalStreamUrl (ti_streamUrl info) = Ok (song_streamUrl s) /\
  (exists page, ti_url info = JStr page) /\
  song_source s = "bandcamp" /\ song_id s = ti_id info /\ song_name s = ti_title info /\
  song_url s = ti_url info /\ song_duration s = ti_duration info /\
  song_uploader_name s = ti_artist info /\ song_thumbnail s = ti_thumbnail info /\
  song_trackNumber s = ti_trackNumber info /\ song_options s = options.
Proof.
  unfold newBandcampSong.
  destruct (finalStreamUrl (ti_streamUrl info)) as [stream|e]; [|discriminate]. simpl.
  destruct (ti_url info) as [| |b|n|page|l|o]; try discriminate. simpl.
  destruct (split_first page "/track/"); simpl; intros [= <-]; simpl;
    repeat split; eexists; reflexivity.
Qed.

Lemma extractArtistFromMeta_not_empty (html : string) :
  extractArtistFromMeta html <> EmptyString.
Proof.
  unfold extractArtistFromMeta.
  destruct (match_attr og_site_name_attr html) as [name|] eqn:Hm; [|discriminate].
  apply match_attr_sound in Hm. tauto.
Qed.

Lemma artist_truthy (recordArtist : jsval) (html : string) :
  truthy (js_or recordArtist (JStr (extractArtistFromMeta html))) = true.
Proof.
  unfold js_or. destruct (truthy recordArtist) eqn:Ha; [exact Ha|].
  pose proof (extractArtistFromMeta_not_empty html).
  destruct (extractArtistFromMeta html); [congruence | reflexivity].
Qed.

Lemma mapM_Result_inv {A B} (f : A -> Result B) (l : list A) (l' : list B) :
  mapM f l = Ok l' -> Forall2 (fun x y => f x = Ok y) l l'.
Proof.
  revert l'. induction l as [|x l IH]; intros l'; simpl.
  - intros [= <-]. constructor.
  - destruct (f x) as [y|e] eqn:Hy; simpl; [|discriminate].
    destruct (mapM f l) as [ys|e]; simpl; [|discriminate].
    intros [= <-]. constructor; [exact Hy | apply IH; reflexivity].
Qed.

Lemma filterR_inv {A} (p : A -> Result bool) (l l' : list A) :
  filterR p l = Ok l' -> Forall (fun x => p x = Ok true) l' /\ l' `sublist_of` l.
Proof.
  revert l'. induction l as [|x l IH]; intros l'; simpl.
  - intros [= <-]. split; constructor.
  - destruct (p x) as [[|]|e] eqn:Hx; simpl; try discriminate;
      destruct (filterR p l) as [rest|e]; simpl; try discriminate; intros [= <-];
      destruct (IH rest eq_refl) as [Hall Hsub].
    + split; [constructor; assumption | apply sublist_skip; exact Hsub].
    + split; [assumption | apply sublist_cons; exact Hsub].
Qed.

(** ** Track pages *)

Section TrackPage.
Context `{Platform}.

(** A console line of [parseTrackPage] only ever comes with the failure it
    explains. *)
Lemma parseTrackPage_console (html : string) (url options : jsval)
    (out : list LogEntry) (r : Result BandcampSong) :
  parseTrackPage html url options = (out, r) ->
  out = [] \/
  exists first, out = [LogValue "Available track info:" first] /\
                r = Throw (Error "Could not find MP3 stream URL").
Proof.
  unfold parseTrackPage, pureC, console_error.
  destruct (match_attr tralbum_attr html) as [blob|]; [|intros [= <- _]; left; reflexivity].
  destruct (parse_json (decodeEntities blob)) as [data|e]; simpl;
    [|intros [= <- _]; left; reflexivity].
  destruct (getProp data "trackinfo") as [ti|e]; simpl; [|intros [= <- _]; left; reflexivity].
  destruct (truthy _); simpl.
  - intros [= <- _]. left. reflexivity.
  - intros [= <- <-]. right. eexists. split; reflexivity.
Qed.

(** A track page whose record has a first entry with a stream, whatever
    entries follow it. When the entry's id converts to a string, the song
    is that entry's: its name, its duration and its id are the entry's,
    its URL is the page's, and nothing is written. When the id does not
    convert, as an object with a [toString] member of its own does not,
    the call [track_id?.toString()] throws a [TypeError] and no song is
    built. *)
Theorem parseTrackPage_song (html page : string) (options : jsval)
    (blob : string) (data trackinfo : jsval) (u : string) :
  match_attr tralbum_attr html = Some blob ->
  JSON_parse (decodeEntities blob) = Some data ->
  getProp data "trackinfo" = Ok trackinfo ->
  stream_of (firstOpt trackinfo) = JStr u -> u <> EmptyString ->
  let first := firstOpt trackinfo in
  (unprintable (getPropOpt first "track_id") = false ->
   exists song id_text,
     parseTrackPage html (JStr page) options = ([], Ok song) /\
     song_name song = getPropOpt first "title" /\
     song_url song = JStr page /\
     song_duration song = js_or (getPropOpt first "duration") (of_int 0) /\
     toStringOpt (getPropOpt first "track_id") = Ok id_text /\
     song_id song = js_or id_text (getPropOpt first "title_link") /\
     song_streamUrl song = JStr (if has_scheme u then u else "https:" +:+ u) /\
     song_uploader_name song
     = js_or (getPropOpt data "artist") (JStr (extractArtistFromMeta html)) /\
     song_trackNumber song = getPropOpt first "track_num") /\
  (unprintable (getPropOpt first "track_id") = true ->
   exists m, parseTrackPage html (JStr page) options = ([], Throw (TypeError m))).
Proof.
  intros Hblob Hjson Hti Hu Hne first.
  assert (Hdata : nullish data = false) by (destruct data; simpl in *; congruence).
  assert (Hfirst : nullish first = false).
  { unfold stream_of in Hu. fold first in Hu. destruct first; simpl in *; congruence. }
  destruct u as [|c u]; [congruence|].
  unfold parseTrackPage, parse_json, pureC. rewrite Hblob, Hjson. simpl. rewrite Hti. simpl.
  fold first. unfold stream_of in Hu. fold first in Hu. rewrite Hu. simpl.
  rewrite !(getProp_defined data), !(getProp_defined first) by assumption. simpl.
  split.
  - intros Hid. destruct (toStringOpt_printable _ Hid) as [id_text Hid_text].
    rewrite Hid_text. simpl. unfold newBandcampSong, finalStreamUrl. simpl.
    destruct (split_first page "/track/"); simpl; eexists _, id_text; repeat split.
  - intros Hid. destruct (toStringOpt_unprintable _ Hid) as [m Hm].
    rewrite Hm. simpl. exists m. reflexivity.
Qed.

(** The record is missing, or its first entry has no stream. *)
Theorem parseTrackPage_failures (html : string) (url options : jsval) :
  (includes html tralbum_attr = false ->
   parseTrackPage html url options
   = ([], Throw (Error "Could not find track data on page"))) /\
  (forall blob data trackinfo,
     match_attr tralbum_attr html = Some blob ->
     JSON_parse (decodeEntities blob) = Some data ->
     getProp data "trackinfo" = Ok trackinfo ->
     qualifies (firstOpt trackinfo) = false ->
     parseTrackPage html url options
     = ([LogValue "Available track info:" (firstOpt trackinfo)],
        Throw (Error "Could not find MP3 stream URL"))).
Proof.
  split.
  - intros Habsent. unfold parseTrackPage. rewrite (match_attr_absent _ _ Habsent).
    reflexivity.
  - intros blob data trackinfo Hblob Hjson Hti Hq.
    unfold parseTrackPage, parse_json, pureC. rewrite Hblob, Hjson. simpl. rewrite Hti. simpl.
    unfold qualifies, stream_of in Hq. rewrite Hq. reflexivity.
Qed.
End TrackPage.

Lemma parseTrackPage_song_witness :
  (exists song,
     parseTrackPage (H := Sample.runtime) (Sample.page_with Sample.track_text)
       (JStr Sample.track_url) (JObj ∅) = ([], Ok song) /\
     song_name song = JStr "One" /\
     song_id song = JStr "42" /\
     song_url song = JStr Sample.track_url /\
     song_streamUrl song = JStr "https://t4.bcbits.com/stream/one") /\
  (exists m,
     parseTrackPage (H := Sample.runtime) (Sample.page_with Sample.odd_text)
       (JStr Sample.track_url) (JObj ∅) = ([], Throw (TypeError m))).
Proof.
  split.
  - destruct (parseTrackPage_song (H := Sample.runtime) (Sample.page_with Sample.track_text)
                Sample.track_url (JObj ∅) (htmlEncode Sample.track_text) Sample.track_value
                (JArr [Sample.entry_value 42 "One" "one" (Some Sample.stream_one)])
                Sample.stream_one)
      as [Hsong _].
    + vm_compute. reflexivity.
    + vm_compute. reflexivity.
    + vm_compute. reflexivity.
    + vm_compute. reflexivity.
    + discriminate.
    + destruct Hsong as (song & id_text & Hrun & Hname & Hurl & _ & Hid_text & Hid & Hstream & _);
        [vm_compute; reflexivity|].
      vm_compute in Hid_text. injection Hid_text as <-.
      exists song. split; [exact Hrun|]. split; [rewrite Hname; vm_compute; reflexivity|].
      split; [rewrite Hid; vm_compute; reflexivity|].
      split; [exact Hurl|]. rewrite Hstream. vm_compute. reflexivity.
  - apply (proj2 (parseTrackPage_song (H := Sample.runtime)
                    (Sample.page_with Sample.odd_text)
                    Sample.track_url (JObj ∅) (htmlEncode Sample.odd_text) Sample.odd_value
                    (JArr [Sample.odd_entry_value]) Sample.stream_one
                    ltac:(vm_compute; reflexivity) ltac:(vm_compute; reflexivity)
                    ltac:(vm_compute; reflexivity) ltac:(vm_compute; reflexivity)
                    ltac:(discriminate))).
    vm_compute. reflexivity.
Defined.

Lemma parseTrackPage_failures_witness :
  parseTrackPage (H := Sample.runtime) "<html></html>" (JStr Sample.track_url) (JObj ∅)
  = ([], Throw (Error "Could not find track data on page")).
Proof.
  apply (proj1 (parseTrackPage_failures (H := Sample.runtime) "<html></html>"
                  (JStr Sample.track_url) (JObj ∅))).
  vm_compute. reflexivity.
Defined.

(** ** What every parsed entity has *)

Section Invariants.
Context `{Platform}.

Lemma song_built_sound (info : BandcampTrackInfo) (options : jsval) (s : BandcampSong) :
  newBandcampSong info options = Ok s ->
  truthy (ti_streamUrl info) = true -> truthy (ti_artist info) = true ->
  song_sound s /\ song_uploader_name s = ti_artist info /\ song_url s = ti_url info.
Proof.
  intros Hs Hstream Hartist.
  destruct (newBandcampSong_ok _ _ _ Hs)
    as (Hfinal & _ & Hsource & _ & _ & Hurl & _ & Hname & _).
  destruct (finalStreamUrl_truthy _ _ Hfinal Hstream) as (u & _ & _ & Hstored).
  repeat split; try assumption.
  - exists (if has_scheme u then u else "https:" +:+ u). split; [exact Hstored|].
    apply has_scheme_carries.
  - rewrite Hname. exact Hartist.
Qed.

Lemma albumTrack_ok (data artist thumbnail url t : jsval) (info : BandcampTrackInfo) :
  hasStream t = Ok true ->
  albumTrack data artist thumbnail url t = Ok info ->
  truthy (ti_streamUrl info) = true /\ ti_artist info = artist.
Proof.
  unfold hasStream, mp3_128_of, albumTrack. intros Hq.
  destruct (getProp t "file") as [file|e] eqn:Hfile; [|discriminate]. simpl in Hq.
  injection Hq as Hq.
  destruct (getProp t "track_id"); [|discriminate]. simpl.
  destruct (toStringOpt _); [|discriminate]. simpl.
  destruct (getProp t "title_link"); [|discriminate]. simpl.
  destruct (getProp t "title"); [|discriminate]. simpl.
  destruct (getProp data "current"); [|discriminate]. simpl.
  destruct (getProp t "duration"); [|discriminate]. simpl.
  destruct (if truthy _ then _ else _) as [trackUrl|e]; [|discriminate]. simpl.
  assert (Hmp3 : getProp file "mp3-128" = Ok (getPropOpt file "mp3-128")).
  { apply getProp_defined. destruct file; simpl in *; congruence. }
  rewrite Hmp3. simpl.
  destruct (getProp t "track_num"); [|discriminate]. simpl.
  intros [= <-]. simpl. split; [exact Hq | reflexivity].
Qed.

Lemma parseTrackPage_sound (html : string) (url options : jsval)
    (out : list LogEntry) (song : BandcampSong) :
  parseTrackPage html url options = (out, Ok song) ->
  out = [] /\ song_sound song /\ song_url song = url.
Proof.
  intros Hrun.
  destruct (parseTrackPage_console _ _ _ _ _ Hrun) as [-> | (first & _ & [=])].
  split; [reflexivity|]. revert Hrun. unfold parseTrackPage, pureC, console_error.
  destruct (match_attr tralbum_attr html) as [blob|]; [|discriminate].
  destruct (parse_json (decodeEntities blob)) as [data|e]; simpl; [|discriminate].
  destruct (getProp data "trackinfo") as [ti|e]; simpl; [|discriminate].
  destruct (truthy (getPropOpt (getPropOpt (firstOpt ti) "file") "mp3-128")) eqn:Hmp3;
    simpl; [|discriminate].
  destruct (getProp data "artist") as [recordArtist|e]; simpl; [|discriminate].
  destruct (getProp data "artFullsizeUrl"); simpl; [|discriminate].
  destruct (getProp data "artThumbURL"); simpl; [|discriminate].
  destruct (getProp (firstOpt ti) "track_id"); simpl; [|discriminate].
  destruct (toStringOpt _); simpl; [|discriminate].
  destruct (getProp (firstOpt ti) "title_link"); simpl; [|discriminate].
  destruct (getProp (firstOpt ti) "title"); simpl; [|discriminate].
  destruct (getProp data "current"); simpl; [|discriminate].
  destruct (getProp (firstOpt ti) "duration"); simpl; [|discriminate].
  destruct (getProp (firstOpt ti) "track_num"); simpl; [|discriminate].
  destruct (newBandcampSong _ options) as [s|e] eqn:Hs; [|discriminate].
  intros [= <-]. apply song_built_sound in Hs as (Hsound & _ & Hurl);
    [split; assumption | exact Hmp3 | apply artist_truthy].
Qed.

Lemma parseAlbumPage_sound (html : string) (url options : jsval) (album : Album) :
  parseAlbumPage html url options = Ok album ->
  truthy (album_name album) = true /\ truthy (album_artist album) = true /\
  album_url album = url /\
  Forall (fun s => song_sound s /\ song_uploader_name s = album_artist album)
    (album_songs album).
Proof.
  unfold parseAlbumPage.
  destruct (match_attr tralbum_attr html) as [blob|]; [|discriminate].
  destruct (parse_json (decodeEntities blob)) as [data|e]; simpl; [|discriminate].
  destruct (getProp data "artist") as [recordArtist|e]; simpl; [|discriminate].
  destruct (getProp data "artFullsizeUrl"); simpl; [|discriminate].
  destruct (getProp data "artThumbURL"); simpl; [|discriminate].
  destruct (getProp data "trackinfo") as [ti|e]; simpl; [|discriminate].
  destruct (as_array ti) as [entries|e]; simpl; [|discriminate].
  destruct (filterR hasStream entries) as [retained|e] eqn:Hretained; simpl; [|discriminate].
  destruct (mapM _ retained) as [tracks|e] eqn:Htracks; simpl; [|discriminate].
  destruct (getProp data "current") as [current|e]; simpl; [|discriminate].
  destruct (toStringOpt _) as [album_id_text|e]; simpl; [|discriminate].
  unfold newBandcampAlbum. simpl.
  destruct (mapM _ tracks) as [songs|e] eqn:Hsongs; simpl; [|discriminate].
  intros [= <-]. simpl. split; [|split; [apply artist_truthy | split; [reflexivity|]]].
  + unfold js_or. destruct (truthy (getPropOpt current "title")) eqn:Ht; [exact Ht | reflexivity].
  + apply filterR_inv in Hretained as [Hstreams _].
    apply mapM_Result_inv in Htracks. apply mapM_Result_inv in Hsongs.
    assert (Hinfos : Forall (fun info => truthy (ti_streamUrl info) = true /\
                               ti_artist info
                               = js_or recordArtist (JStr (extractArtistFromMeta html)))
                       tracks).
    { clear Hsongs. induction Htracks as [|t info ts infos Hinfo _ IH]; [constructor|].
      inversion Hstreams as [|? ? Ht Hts]; subst.
      constructor; [exact (albumTrack_ok _ _ _ _ _ _ Ht Hinfo) | apply IH, Hts]. }
    clear Htracks Hstreams. induction Hsongs as [|info s infos ss Hs _ IH]; [constructor|].
    inversion Hinfos as [|? ? [Hstream Hartist] Hrest]; subst.
    constructor; [|apply IH, Hrest].
    apply song_built_sound in Hs as (Hsound & Hname & _);
      [| exact Hstream | rewrite Hartist; apply artist_truthy].
    split; [exact Hsound | rewrite Hname; exact Hartist].
Qed.

(** Whatever the page, a song that [parseTrackPage] returns comes without a
    console line, carries the page URL it was parsed for, and is sound; an
    album that [parseAlbumPage] returns has a name and an artist that are
    not empty, and each of its songs is sound and carries the album's
    artist. No returned song is without a stream URL. *)
Theorem parsed_entities_sound (html : string) (url options : jsval) :
  (forall out song,
     parseTrackPage html url options = (out, Ok song) ->
     out = [] /\ song_sound song /\ song_url song = url) /\
  (forall album,
     parseAlbumPage html url options = Ok album ->
     truthy (album_name album) = true /\ truthy (album_artist album) = true /\
     album_url album = url /\
     Forall (fun s => song_sound s /\ song_uploader_name s = album_artist album)
       (album_songs album)).
Proof.
  split; [intros out song; apply parseTrackPage_sound | intros album; apply parseAlbumPage_sound].
Qed.
End Invariants.

Lemma parsed_entities_sound_witness :
  exists album,
    parseAlbumPage (H := Sample.runtime) (Sample.page_with Sample.album_text)
      (JStr Sample.album_url) (JObj ∅) = Ok album /\
    truthy (album_name album) = true /\ truthy (album_artist album) = true /\
    album_url album = JStr Sample.album_url /\
    Forall (fun s => song_sound s /\ song_uploader_name s = album_artist album)
      (album_songs album).
Proof.
  eexists. split; [vm_compute; reflexivity|].
  apply (proj2 (parsed_entities_sound (H := Sample.runtime)
                  (Sample.page_with Sample.album_text) (JStr Sample.album_url) (JObj ∅))).
  vm_compute. reflexivity.
Defined.

(** ** Stream and uploader URLs of a built song *)

Lemma prefix_app_le (p a b : string) :
  String.length p <= String.length a -> String.prefix p (a +:+ b) = String.prefix p a.
Proof.
  revert a. induction p as [|x p IH]; intros a Hlen.
  - destruct a, b; reflexivity.
  - destruct a as [|y a]; [simpl in Hlen; lia|].
    change (String y a +:+ b) with (String y (a +:+ b)). cbn [String.prefix].
    destruct (ascii_dec x y); [|reflexivity]. apply IH. simpl in Hlen. lia.
Qed.

Lemma length_append_s (a b : string) :
  String.length (a +:+ b) = String.length a + String.length b.
Proof. induction a as [|x a IH]; simpl; [reflexivity | rewrite IH; reflexivity]. Qed.

(** [s.split(sep)[0]] when [s] has no [sep]: all of [s]. *)
Lemma split_first_absent (s sep : string) :
  includes s sep = false -> split_first s sep = s.
Proof.
  induction s as [|c s IH]; cbn [includes split_first]; rewrite orb_false_iff.
  - intros [-> _]. reflexivity.
  - intros [-> Hs]. rewrite (IH Hs). reflexivity.
Qed.

(** [s.split(sep)[0]] when the first [sep] of [s] is the one after [base]:
    no [sep] begins earlier, that is, none lies within [base] followed by
    all but the last character of [sep]. *)
Lemma split_first_found (base init : string) (last : ascii) (rest : string) :
  let sep := init +:+ String last EmptyString in
  includes (base +:+ init) sep = false ->
  split_first (base +:+ sep +:+ rest) sep = base.
Proof.
  intros sep. induction base as [|c base IH].
  - intros _. change (EmptyString +:+ ?x) with x.
    assert (String.prefix sep (sep +:+ rest) = true) as Hp
      by (apply prefix_spec; exists rest; reflexivity).
    destruct (sep +:+ rest); cbn [split_first]; rewrite Hp; reflexivity.
  - change (String c base +:+ ?x) with (String c (base +:+ x)).
    cbn [includes split_first]. rewrite orb_false_iff. intros [Hp Hs].
    assert (Hsplit : String c (base +:+ sep +:+ rest)
                     = String c (base +:+ init) +:+ (String last EmptyString +:+ rest)).
    { unfold sep. change (String c (base +:+ init) +:+ ?x)
        with (String c ((base +:+ init) +:+ x)).
      f_equal. rewrite !append_assoc_s. reflexivity. }
    rewrite Hsplit, prefix_app_le, Hp
      by (unfold sep; cbn [String.length]; rewrite !length_append_s; simpl; lia).
    rewrite (IH Hs). reflexivity.
Qed.

Lemma has_scheme_not_empty (u : string) :
  has_scheme u = true \/ startsWith u "//" = true -> u <> EmptyString.
Proof. intros [Hu | Hu] ->; discriminate Hu. Qed.

(** A stream URL that has its scheme, or is protocol-relative as the pages
    carry it, is stored with [http://] or [https://] in front, and
    [getStreamURL] on the song built returns what is stored: asking again
    changes nothing. *)
Theorem stream_url_stable (info : BandcampTrackInfo) (options : jsval) (u page : string) :
  ti_streamUrl info = JStr u -> ti_url info = JStr page ->
  has_scheme u = true \/ startsWith u "//" = true ->
  let stored := if has_scheme u then u else "https:" +:+ u in
  exists song,
    newBandcampSong info options = Ok song /\
    song_streamUrl song = JStr stored /\
    has_scheme stored = true /\
    getStreamURL song = Ok stored.
Proof.
  intros Hu Hpage Hform stored.
  destruct (newBandcampSong_string info options u page Hu
              (has_scheme_not_empty u Hform) Hpage) as (song & Hsong & _ & Hstored & _).
  fold stored in Hstored.
  assert (Hscheme : has_scheme stored = true).
  { unfold stored. destruct (has_scheme u) eqn:Hs; [exact Hs|].
    destruct Hform as [Hf | Hf]; [discriminate|].
    unfold has_scheme. apply orb_true_iff. right.
    rewrite startsWith_https_colon. exact Hf. }
  exists song. repeat split; try assumption.
  apply getStreamURL_schemed; assumption.
Qed.

Lemma stream_url_stable_witness :
  exists song,
    newBandcampSong
      {| ti_id := JStr "42"; ti_title := JStr "One"; ti_artist := JStr "Artist";
         ti_album := JUndefined; ti_duration := of_int 0;
         ti_url := JStr Sample.track_url; ti_thumbnail := JUndefined;
         ti_streamUrl := JStr Sample.stream_one; ti_trackNumber := JUndefined |}
      (JObj ∅) = Ok song /\
    song_streamUrl song = JStr "https://t4.bcbits.com/stream/one" /\
    has_scheme "https://t4.bcbits.com/stream/one" = true /\
    getStreamURL song = Ok "https://t4.bcbits.com/stream/one".
Proof.
  apply (stream_url_stable _ (JObj ∅) Sample.stream_one Sample.track_url).
  - reflexivity.
  - reflexivity.
  - right. reflexivity.
Defined.

(** The uploader URL of a built song. For a page URL with [/track/] in it,
    it is the text before the first [/track/]. For a page URL without, it
    is the whole URL: the split at [/album/] is only reached when the URL
    begins with [/track/], so a song that carries its album's URL does not
    get the artist's address. *)
Theorem uploader_url_of_song (info : BandcampTrackInfo) (options : jsval)
    (song : BandcampSong) (page : string) :
  newBandcampSong info options = Ok song -> ti_url info = JStr page ->
  (forall base slug,
     page = base +:+ "/track/" +:+ slug -> base <> EmptyString ->
     includes (base +:+ "/track") "/track/" = false ->
     song_uploader_url song = base) /\
  (includes page "/track/" = false -> page <> EmptyString ->
   song_uploader_url song = page).
Proof.
  unfold newBandcampSong. intros Hsong Hpage. rewrite Hpage in Hsong.
  destruct (finalStreamUrl (ti_streamUrl info)) as [stream|e]; [|discriminate].
  simpl in Hsong. split.
  - intros base slug -> Hne Hfirst.
    assert (Hsplit : split_first (base +:+ "/track/" +:+ slug) "/track/" = base)
      by exact (split_first_found base "/track" "/" slug Hfirst).
    rewrite Hsplit in Hsong.
    destruct base; [congruence|]. simpl in Hsong. injection Hsong as <-. reflexivity.
  - intros Habsent Hne. rewrite (split_first_absent _ _ Habsent) in Hsong.
    destruct page; [congruence|]. simpl in Hsong. injection Hsong as <-. reflexivity.
Qed.

Lemma uploader_url_of_song_witness :
  (exists song,
     newBandcampSong Sample.bare_info (JObj ∅) = Ok song /\
     song_uploader_url song = Sample.artist_url) /\
  (exists song,
     newBandcampSong
       {| ti_id := JStr "42"; ti_title := JStr "One"; ti_artist := JStr "Artist";
          ti_album := JUndefined; ti_duration := of_int 0;
          ti_url := JStr Sample.album_url; ti_thumbnail := JUndefined;
          ti_streamUrl := JStr Sample.stream_one; ti_trackNumber := JUndefined |}
       (JObj ∅) = Ok song /\
     song_uploader_url song = Sample.album_url).
Proof.
  split.
  - destruct (newBandcampSong Sample.bare_info (JObj ∅)) as [song|e] eqn:Hsong;
      [|vm_compute in Hsong; discriminate Hsong].
    exists song. split; [reflexivity|].
    apply (proj1 (uploader_url_of_song Sample.bare_info (JObj ∅) song Sample.track_url
                    Hsong eq_refl) Sample.artist_url "one");
      [reflexivity | discriminate | vm_compute; reflexivity].
  - destruct (newBandcampSong _ (JObj ∅)) as [song|e] eqn:Hsong;
      [|vm_compute in Hsong; discriminate Hsong].
    exists song. split; [reflexivity|].
    apply (proj2 (uploader_url_of_song _ (JObj ∅) song Sample.album_url Hsong eq_refl));
      [vm_compute; reflexivity | discriminate].
Defined.

(** ** Page URLs of an album's songs *)

Section AlbumTrackUrls.
Context `{Platform}.

Lemma albumTrack_url (data artist thumbnail : jsval) (page : string) (t : jsval) :
  nullish data = false -> entry_shaped t -> qualifies t = true ->
  exists info u,
    albumTrack data artist thumbnail (JStr page) t = Ok info /\
    ti_streamUrl info = JStr u /\ u <> EmptyString /\
    exists trackPage,
      ti_url info = JStr trackPage /\
      if truthy (getPropOpt t "title_link")
      then exists slug,
             interpolate (getPropOpt t "title_link") = Ok slug /\
             trackPage = split_first page "/album/" +:+ "/track/" +:+ slug
      else trackPage = page.
Proof.
  intros Hdata [Ht Hshape] Hq. destruct (Hshape Hq) as ([u Hu] & Hid & Hlink).
  pose proof (stream_of_file t u Hu) as Hmp3.
  assert (Hne : u <> EmptyString).
  { intros ->. unfold qualifies in Hq. rewrite Hu in Hq. discriminate Hq. }
  destruct (toStringOpt_printable _ Hid) as [id_text Hid_text].
  destruct (interpolate_printable _ Hlink) as [slug Hslug].
  unfold albumTrack. rewrite !(getProp_defined t) by assumption.
  rewrite (getProp_defined data) by assumption. simpl. rewrite Hid_text. simpl.
  destruct (truthy (getPropOpt t "title_link")); simpl; rewrite ?Hslug; simpl;
    rewrite Hmp3; simpl; eexists _, u; (split; [reflexivity|]);
    (split; [reflexivity|]); (split; [assumption|]);
    eexists; (split; [reflexivity|]).
  - exists slug. split; reflexivity.
  - reflexivity.
Qed.

(** What [albumTrack] throws on a retained entry is a [TypeError], and it
    throws one when the entry's id or slug does not convert to a string. *)
Lemma albumTrack_throws (data artist thumbnail : jsval) (page : string) (t : jsval) :
  nullish data = false -> nullish t = false -> qualifies t = true ->
  (forall e, albumTrack data artist thumbnail (JStr page) t = Throw e ->
             exists m, e = TypeError m) /\
  (unprintable (getPropOpt t "track_id") = true \/
   unprintable (getPropOpt t "title_link") = true ->
   exists e, albumTrack data artist thumbnail (JStr page) t = Throw e).
Proof.
  intros Hdata Ht Hq.
  assert (Hfile : nullish (getPropOpt t "file") = false).
  { unfold qualifies, stream_of in Hq. destruct (getPropOpt t "file"); simpl in *; congruence. }
  pose proof (getProp_defined (getPropOpt t "file") "mp3-128" Hfile) as Hmp3.
  unfold albumTrack. rewrite !(getProp_defined t) by assumption.
  rewrite (getProp_defined data) by assumption. simpl.
  destruct (unprintable (getPropOpt t "track_id")) eqn:Hid.
  { destruct (toStringOpt_unprintable _ Hid) as [m ->]. simpl.
    split; [intros e [= <-]; exists m; reflexivity | intros _; eexists; reflexivity]. }
  destruct (toStringOpt_printable _ Hid) as [id_text ->]. simpl.
  destruct (unprintable (getPropOpt t "title_link")) eqn:Hlink.
  - assert (Htruthy : truthy (getPropOpt t "title_link") = true)
      by (destruct (getPropOpt t "title_link"); simpl in *; congruence).
    rewrite Htruthy. simpl.
    destruct (interpolate_unprintable _ Hlink) as [m ->]. simpl.
    split; [intros e [= <-]; exists m; reflexivity | intros _; eexists; reflexivity].
  - destruct (interpolate_printable _ Hlink) as [slug ->].
    split; [|intros [? | ?]; discriminate].
    destruct (truthy (getPropOpt t "title_link")); simpl; rewrite Hmp3; simpl; discriminate.
Qed.

(** An album page at [base/album/name]. On a record of the shape above
    whose album id converts to a string, the song of an entry with a slug
    gets the page URL [base/track/slug], the slug as the template literal
    converts it, and the song of an entry without one gets the album's
    URL. On a record with an entry that has a stream and whose id or slug
    does not convert to a string, as an object with a [toString] member of
    its own does not, the assembly throws a [TypeError]. *)
Theorem parseAlbumPage_track_urls (html base name : string) (options : jsval)
    (blob : string) (data : jsval) (entries : list jsval) :
  let page := base +:+ "/album/" +:+ name in
  includes (base +:+ "/album") "/album/" = false ->
  match_attr tralbum_attr html = Some blob ->
  JSON_parse (decodeEntities blob) = Some data ->
  getProp data "trackinfo" = Ok (JArr entries) ->
  (unprintable (getPropOpt (getPropOpt data "current") "id") = false ->
   Forall entry_shaped entries ->
   exists album,
     parseAlbumPage html (JStr page) options = Ok album /\
     album_url album = JStr page /\
     Forall2 (fun t s =>
                if truthy (getPropOpt t "title_link")
                then exists slug,
                       interpolate (getPropOpt t "title_link") = Ok slug /\
                       song_url s = JStr (base +:+ "/track/" +:+ slug)
                else song_url s = JStr page)
       (List.filter qualifies entries) (album_songs album)) /\
  (Forall (fun t => nullish t = false) entries ->
   Exists (fun t => qualifies t = true /\
                    (unprintable (getPropOpt t "track_id") = true \/
                     unprintable (getPropOpt t "title_link") = true)) entries ->
   exists m, parseAlbumPage html (JStr page) options = Throw (TypeError m)).
Proof.
  intros page Hfirst Hblob Hjson Htrackinfo.
  assert (Hbase : split_first page "/album/" = base)
    by exact (split_first_found base "/album" "/" name Hfirst).
  assert (Hdata : nullish data = false) by (destruct data; simpl in *; congruence).
  assert (Hti : getPropOpt data "trackinfo" = JArr entries).
  { rewrite getProp_defined in Htrackinfo by assumption. congruence. }
  set (artist := js_or (getPropOpt data "artist") (JStr (extractArtistFromMeta html))).
  set (thumbnail := js_or (js_or (getPropOpt data "artFullsizeUrl")
                                 (getPropOpt data "artThumbURL"))
                          (extractThumbnailFromMeta html)).
  split.
  - intros Halbum_id Hshaped.
    destruct (toStringOpt_printable _ Halbum_id) as [album_id_text Halbum_id_text].
    assert (Hretained : filterR hasStream entries = Ok (List.filter qualifies entries)).
    { apply filterR_total. eapply Forall_impl; [exact Hshaped|].
      intros t [Ht _]. apply hasStream_qualifies, Ht. }
    destruct (mapM_Result_Forall2
                (fun t => info ← albumTrack data artist thumbnail (JStr page) t;
                          newBandcampSong info options)
                (fun t s =>
                   if truthy (getPropOpt t "title_link")
                   then exists slug,
                          interpolate (getPropOpt t "title_link") = Ok slug /\
                          song_url s = JStr (base +:+ "/track/" +:+ slug)
                   else song_url s = JStr page)
                (List.filter qualifies entries)) as (songs & Hsongs & Hrel).
    { apply List.Forall_forall. intros t Hin. apply List.filter_In in Hin as [Hin Hq].
      rewrite List.Forall_forall in Hshaped.
      destruct (albumTrack_url data artist thumbnail page t Hdata (Hshaped t Hin) Hq)
        as (info & u & Hinfo & Hstream & Hne & trackPage & Hurl & Hpage).
      rewrite Hbase in Hpage.
      destruct (newBandcampSong info options) as [s|e] eqn:Hs.
      - exists s. rewrite Hinfo. simpl. split; [exact Hs|].
        destruct (newBandcampSong_ok _ _ _ Hs) as (_ & _ & _ & _ & _ & Hsurl & _).
        rewrite Hsurl, Hurl.
        destruct (truthy (getPropOpt t "title_link")).
        + destruct Hpage as (slug & Hslug & ->). exists slug.
          split; [exact Hslug | reflexivity].
        + rewrite Hpage. reflexivity.
      - exfalso.
        destruct (newBandcampSong_string info options u _ Hstream Hne Hurl) as (s & Hs' & _).
        congruence. }
    destruct (mapM_Result_compose _ _ _ _ Hsongs) as (tracks & Htracks & Hbuilt).
    eexists. split.
    + unfold parseAlbumPage, parse_json. rewrite Hblob, Hjson. simpl.
      rewrite !(getProp_defined data) by assumption. simpl.
      rewrite Hti. simpl. rewrite Hretained. simpl.
      fold artist thumbnail. rewrite Htracks. simpl. rewrite Halbum_id_text. simpl.
      unfold newBandcampAlbum. simpl. rewrite Hbuilt. simpl. reflexivity.
    + split; [reflexivity | exact Hrel].
  - intros Hobjects Hbad.
    assert (Hretained : filterR hasStream entries = Ok (List.filter qualifies entries)).
    { apply filterR_total. eapply Forall_impl; [exact Hobjects|].
      intros t Ht. apply hasStream_qualifies, Ht. }
    destruct (mapM_Result_throw (albumTrack data artist thumbnail (JStr page))
                (fun e => exists m, e = TypeError m) (List.filter qualifies entries))
      as (e & Hmap & m & ->).
    { apply List.Forall_forall. intros t Hin. apply List.filter_In in Hin as [Hin Hq].
      rewrite List.Forall_forall in Hobjects.
      apply (albumTrack_throws data artist thumbnail page t Hdata (Hobjects t Hin) Hq). }
    { apply List.Exists_exists in Hbad as (t & Hin & Hq & Hwhich).
      apply List.Exists_exists. exists t. split; [apply List.filter_In; split; assumption|].
      rewrite List.Forall_forall in Hobjects.
      apply (albumTrack_throws data artist thumbnail page t Hdata (Hobjects t Hin) Hq), Hwhich. }
    exists m. unfold parseAlbumPage, parse_json. rewrite Hblob, Hjson. simpl.
    rewrite !(getProp_defined data) by assumption. simpl.
    rewrite Hti. simpl. rewrite Hretained. simpl.
    fold artist thumbnail. rewrite Hmap. reflexivity.
Qed.
End AlbumTrackUrls.

Lemma parseAlbumPage_track_urls_witness :
  (exists album,
     parseAlbumPage (H := Sample.runtime) (Sample.page_with Sample.album_text)
       (JStr Sample.album_url) (JObj ∅) = Ok album /\
     map song_url (album_songs album)
     = [JStr "https://artist.bandcamp.com/track/one";
        JStr "https://artist.bandcamp.com/track/two"]) /\
  (exists m,
     parseAlbumPage (H := Sample.runtime) (Sample.page_with Sample.odd_text)
       (JStr Sample.album_url) (JObj ∅) = Throw (TypeError m)).
Proof.
  split.
  - destruct (parseAlbumPage_track_urls (H := Sample.runtime)
                (Sample.page_with Sample.album_text) Sample.artist_url "first" (JObj ∅)
                (htmlEncode Sample.album_text) Sample.album_value Sample.album_entries)
      as [Hshaped _].
    + vm_compute. reflexivity.
    + vm_compute. reflexivity.
    + vm_compute. reflexivity.
    + vm_compute. reflexivity.
    + destruct Hshaped as (album & Hrun & _ & Hurls).
      * vm_compute. reflexivity.
      * unfold Sample.album_entries.
        repeat (apply List.Forall_cons;
                [split; [reflexivity|]; intros Hq;
                 first [ vm_compute in Hq; discriminate Hq
                       | split; [eexists; vm_compute; reflexivity
                                | split; vm_compute; reflexivity] ] |]).
        apply List.Forall_nil.
      * exists album. split; [exact Hrun|].
        change (List.filter qualifies Sample.album_entries)
          with [Sample.entry_value 42 "One" "one" (Some Sample.stream_one);
                Sample.entry_value 43 "Two" "two" (Some Sample.stream_two)] in Hurls.
        inversion Hurls as [|t1 s1 l1 k1 H1 Hrest1 E1 E2]; subst.
        inversion Hrest1 as [|t2 s2 l2 k2 H2 Hrest2 E3 E4]; subst.
        inversion Hrest2; subst.
        destruct H1 as (slug1 & Hslug1 & H1). destruct H2 as (slug2 & Hslug2 & H2).
        vm_compute in Hslug1. vm_compute in Hslug2.
        injection Hslug1 as <-. injection Hslug2 as <-.
        simpl. rewrite H1, H2. vm_compute. reflexivity.
  - apply (proj2 (parseAlbumPage_track_urls (H := Sample.runtime)
                    (Sample.page_with Sample.odd_text) Sample.artist_url "first" (JObj ∅)
                    (htmlEncode Sample.odd_text) Sample.odd_value [Sample.odd_entry_value]
                    ltac:(vm_compute; reflexivity) ltac:(vm_compute; reflexivity)
                    ltac:(vm_compute; reflexivity) ltac:(vm_compute; reflexivity))).
    + repeat constructor.
    + apply List.Exists_cons_hd. split; [vm_compute; reflexivity|].
      left. vm_compute. reflexivity.
Defined.

(** ** What a search sends, returns and throws *)

Lemma omap_length_le {A B} (f : A -> option B) (l : list A) :
  length (omap f l) <= length l.
Proof.
  induction l as [|x l IH]; [reflexivity|]. rewrite omap_cons_list.
  destruct (f x); simpl; lia.
Qed.

Lemma slice_limit_length (n : number) (results : list jsval) :
  length (slice_limit (JNum n) results) <= to_count n.
Proof. simpl. rewrite length_take. lia. Qed.

Section SearchAccount.
Context `{Platform} (net : Network).
#[local] Arguments message : simpl never.

(** The first half of a search sends the search request, and only that,
    however it ends. *)
Lemma autocomplete_world (q kind noun : string) (w w1 : World) (r : Result (list jsval)) :
  autocomplete net q kind noun w = (r, w1) ->
  w1 = {| requests := requests w ++ [SearchRequest q kind]; console := console w |}.
Proof.
  unfold autocomplete. rewrite bind_M. cbn [send].
  rewrite bind_M. unfold liftR at 1.
  destruct (response_of _) as [response|e]; [|intros [= _ <-]; reflexivity].
  rewrite bind_M. unfold liftR at 1.
  destruct (parse_json _) as [data|e]; [|intros [= _ <-]; reflexivity].
  rewrite bind_M. unfold liftR at 1.
  destruct (getProp data "auto") as [auto|e]; [|intros [= _ <-]; reflexivity].
  destruct (negb (truthy _)); [intros [= _ <-]; reflexivity|].
  rewrite bind_M. unfold liftR at 1.
  destruct (results ← getProp auto "results"; as_array results) as [all|e];
    [|intros [= _ <-]; reflexivity].
  rewrite bind_M. unfold liftR at 1.
  destruct (filterR (hasKind kind) all) as [kept|e]; [|intros [= _ <-]; reflexivity].
  destruct (negb (truthy _)); intros [= _ <-]; reflexivity.
Qed.

Lemma candidateOutcomes_pages {A} (parse : string -> jsval -> Con A) (n : nat)
    (candidates : list jsval) :
  length (omap id (candidateOutcomes net parse n candidates))
  <= length (omap pageUrlOf candidates).
Proof.
  revert n. induction candidates as [|c cs IH]; intros n; [reflexivity|].
  cbn [candidateOutcomes]. rewrite (omap_cons_list pageUrlOf).
  destruct (pageUrlOf c) as [address|]; rewrite omap_cons_list; [|apply IH].
  specialize (IH (S n)). destruct (fetched _ _ _).2; simpl; lia.
Qed.

Lemma candidateOutcomes_Forall {A} (parse : string -> jsval -> Con A) (P : A -> Prop)
    (n : nat) (candidates : list jsval) :
  (forall html address out entity, parse html address = (out, Ok entity) -> P entity) ->
  Forall P (omap id (candidateOutcomes net parse n candidates)).
Proof.
  intros Hparse. revert n. induction candidates as [|c cs IH]; intros n; [constructor|].
  cbn [candidateOutcomes]. destruct (pageUrlOf c) as [address|]; rewrite omap_cons_list;
    [|apply IH].
  unfold fetched, pureC, mbind, Con_bind.
  destruct (page_text _) as [html|e]; simpl; [|apply IH].
  destruct (parse html address) as [out [entity|e]] eqn:Hp; simpl; [|apply IH].
  constructor; [eapply Hparse; exact Hp | apply IH].
Qed.

(** The [try] block of a search, however it ends: one search request, then
    at most [limit] page requests; a result no longer than the pages
    fetched; and a failure only from the first half, wrapped, with no page
    fetched and nothing written. *)
Lemma search_body_account {A} (q kind noun label : string)
    (parse : string -> jsval -> Con A) (P : A -> Prop) (limit : number)
    (sched : list nat) (w : World) :
  (forall html address out entity, parse html address = (out, Ok entity) -> P entity) ->
  exists r w' pages,
    try_catch (results ← autocomplete net q kind noun;
               fanOut net label parse sched (slice_limit (JNum limit) results))
      (fun error => throw (DisTuneError "BANDCAMP_PLUGIN_SEARCH_ERROR"
                             [JStr (message error)])) w = (r, w') /\
    requests w' = requests w ++ SearchRequest q kind :: map PageRequest pages /\
    length pages <= to_count limit /\
    (forall l, r = Ok l -> length l <= length pages /\ Forall P l) /\
    (forall e, r = Throw e ->
       pages = [] /\ console w' = console w /\
       exists inner,
         autocomplete net q kind noun w = (Throw inner, w') /\
         e = DisTuneError "BANDCAMP_PLUGIN_SEARCH_ERROR" [JStr (message inner)]).
Proof.
  intros Hparse.
  destruct (autocomplete net q kind noun w) as [[results|e] w1] eqn:Hauto.
  - destruct (search_body_run net q kind noun label parse (JNum limit) sched
                (fun error => throw (DisTuneError "BANDCAMP_PLUGIN_SEARCH_ERROR"
                                       [JStr (message error)])) w w1 results Hauto)
      as (out & Hrun & _).
    apply autocomplete_world in Hauto. rewrite Hauto in Hrun. simpl in Hrun.
    eexists _, _, (omap pageUrlOf (slice_limit (JNum limit) results)).
    split; [exact Hrun|]. split; [simpl; rewrite <- app_assoc; reflexivity|]. split.
    + etransitivity; [apply omap_length_le | apply slice_limit_length].
    + split; [|discriminate]. intros l [= <-]. split.
      * apply candidateOutcomes_pages.
      * apply candidateOutcomes_Forall, Hparse.
  - pose proof (autocomplete_world _ _ _ _ _ _ Hauto) as ->.
    eexists _, _, []. split.
    + unfold try_catch. rewrite bind_M, Hauto. reflexivity.
    + split; [reflexivity|]. split; [simpl; lia|]. split; [discriminate|].
      intros e' [= <-]. split; [reflexivity|]. split; [reflexivity|]. exists e.
      split; reflexivity.
Qed.

(** A failure of the first half reaches the caller wrapped. *)
Lemma search_body_throw {A} (q kind noun label : string)
    (parse : string -> jsval -> Con A) (limit : jsval) (sched : list nat)
    (w w1 : World) (inner : exn) :
  autocomplete net q kind noun w = (Throw inner, w1) ->
  try_catch (results ← autocomplete net q kind noun;
             fanOut net label parse sched (slice_limit limit results))
    (fun error => throw (DisTuneError "BANDCAMP_PLUGIN_SEARCH_ERROR"
                           [JStr (message error)])) w
  = (Throw (DisTuneError "BANDCAMP_PLUGIN_SEARCH_ERROR" [JStr (message inner)]), w1).
Proof. intros Hauto. unfold try_catch. rewrite bind_M, Hauto. reflexivity. Qed.
End SearchAccount.

Lemma invalid_limit_number (limit : jsval) :
  invalid_limit limit = false -> exists n, limit = JNum n.
Proof. destruct limit; try discriminate. eauto. Qed.

Section SearchTheorems.
Context `{Platform} (net : Network).
#[local] Arguments message : simpl never.

(** A search with a string query and a valid limit sends the search
    request once and first, then at most [limit] page requests and nothing
    else, whether it returns or throws; and it returns no more entities
    than it fetched pages. *)
Theorem search_requests_bounded (q : string) (limit options : jsval) (n : number)
    (sched : list nat) (w : World) :
  default_arg limit (of_int 10) = JNum n ->
  invalid_limit (JNum n) = false ->
  (exists r w' pages,
     searchSongs net (JStr q) limit options sched w = (r, w') /\
     requests w' = requests w ++ SearchRequest q "t" :: map PageRequest pages /\
     length pages <= to_count n /\
     (forall songs, r = Ok songs -> length songs <= length pages)) /\
  (exists r w' pages,
     searchAlbums net (JStr q) limit options sched w = (r, w') /\
     requests w' = requests w ++ SearchRequest q "a" :: map PageRequest pages /\
     length pages <= to_count n /\
     (forall albums, r = Ok albums -> length albums <= length pages)).
Proof.
  intros Hdefault Hlimit. split.
  - unfold searchSongs. rewrite Hdefault, Hlimit.
    destruct (search_body_account net q "t" "tracks" "Error fetching track:"
                (fun html trackUrl =>
                   parseTrackPage html trackUrl (default_arg options (JObj ∅)))
                (fun _ => True) n sched w) as (r & w' & pages & Hrun & Hreq & Hlen & Hok & _);
      [auto|].
    exists r, w', pages. repeat split; try assumption. intros songs Hr. apply Hok, Hr.
  - unfold searchAlbums. rewrite Hdefault, Hlimit.
    destruct (search_body_account net q "a" "albums" "Error fetching album:"
                (fun html albumUrl =>
                   album ← pureC (parseAlbumPage html albumUrl
                                    (default_arg options (JObj ∅)));
                   mret (toAlbum album (default_arg options (JObj ∅))))
                (fun _ => True) n sched w) as (r & w' & pages & Hrun & Hreq & Hlen & Hok & _);
      [auto|].
    exists r, w', pages. repeat split; try assumption. intros albums Hr. apply Hok, Hr.
Qed.

(** A search with a string query and a valid limit throws exactly when its
    first half throws: the search request, the decoding of the response
    and the choice of the candidates. The error the caller catches is the
    [BANDCAMP_PLUGIN_SEARCH_ERROR] wrapper with the message of that very
    error; the search request is the only request sent, and nothing has
    been written to the console. The fetches and the parses of the pages
    never make a search throw. *)
Theorem search_failures_wrapped (q : string) (limit options : jsval) (n : number)
    (sched : list nat) (w w' : World) (e : exn) :
  default_arg limit (of_int 10) = JNum n ->
  invalid_limit (JNum n) = false ->
  (searchSongs net (JStr q) limit options sched w = (Throw e, w') <->
   exists inner,
     autocomplete net q "t" "tracks" w = (Throw inner, w') /\
     e = DisTuneError "BANDCAMP_PLUGIN_SEARCH_ERROR" [JStr (message inner)]) /\
  (searchAlbums net (JStr q) limit options sched w = (Throw e, w') <->
   exists inner,
     autocomplete net q "a" "albums" w = (Throw inner, w') /\
     e = DisTuneError "BANDCAMP_PLUGIN_SEARCH_ERROR" [JStr (message inner)]) /\
  (forall kind noun inner,
     autocomplete net q kind noun w = (Throw inner, w') ->
     w' = {| requests := requests w ++ [SearchRequest q kind]; console := console w |}).
Proof.
  intros Hdefault Hlimit. split; [|split].
  - unfold searchSongs. rewrite Hdefault, Hlimit. split.
    + destruct (search_body_account net q "t" "tracks" "Error fetching track:"
                  (fun html trackUrl =>
                     parseTrackPage html trackUrl (default_arg options (JObj ∅)))
                  (fun _ => True) n sched w)
        as (r & w0 & pages & Hrun & _ & _ & _ & Hthrow); [auto|].
      rewrite Hrun. intros [= -> ->].
      destruct (Hthrow e eq_refl) as (_ & _ & inner & Hinner & He).
      exists inner. split; assumption.
    + intros (inner & Hinner & ->). apply search_body_throw, Hinner.
  - unfold searchAlbums. rewrite Hdefault, Hlimit. split.
    + destruct (search_body_account net q "a" "albums" "Error fetching album:"
                  (fun html albumUrl =>
                     album ← pureC (parseAlbumPage html albumUrl
                                      (default_arg options (JObj ∅)));
                     mret (toAlbum album (default_arg options (JObj ∅))))
                  (fun _ => True) n sched w)
        as (r & w0 & pages & Hrun & _ & _ & _ & Hthrow); [auto|].
      rewrite Hrun. intros [= -> ->].
      destruct (Hthrow e eq_refl) as (_ & _ & inner & Hinner & He).
      exists inner. split; assumption.
    + intros (inner & Hinner & ->). apply search_body_throw, Hinner.
  - intros kind noun inner Hinner. eapply autocomplete_world, Hinner.
Qed.

(** Whatever a search returns is sound: each song has its stream URL with a
    scheme and a named uploader, and each album has a name and sound
    songs. *)
Theorem search_results_sound (query limit options : jsval) (sched : list nat)
    (w w' : World) :
  (forall songs,
     searchSongs net query limit options sched w = (Ok songs, w') ->
     Forall song_sound songs) /\
  (forall albums,
     searchAlbums net query limit options sched w = (Ok albums, w') ->
     Forall (fun album => truthy (album_name album) = true /\
                          Forall song_sound (album_songs album)) albums).
Proof.
  split.
  - intros songs. unfold searchSongs.
    destruct query as [| |b|m|q|l|o]; try discriminate.
    destruct (invalid_limit _) eqn:Hlimit; [discriminate|].
    destruct (invalid_limit_number _ Hlimit) as [n Hn]. rewrite Hn.
    destruct (search_body_account net q "t" "tracks" "Error fetching track:"
                (fun html trackUrl =>
                   parseTrackPage html trackUrl (default_arg options (JObj ∅)))
                song_sound n sched w) as (r & w0 & pages & Hrun & _ & _ & Hok & _).
    { intros html address out song Hp. apply parseTrackPage_sound in Hp. tauto. }
    rewrite Hrun. intros [= -> _]. apply (Hok songs eq_refl).
  - intros albums. unfold searchAlbums.
    destruct query as [| |b|m|q|l|o]; try discriminate.
    destruct (invalid_limit _) eqn:Hlimit; [discriminate|].
    destruct (invalid_limit_number _ Hlimit) as [n Hn]. rewrite Hn.
    destruct (search_body_account net q "a" "albums" "Error fetching album:"
                (fun html albumUrl =>
                   album ← pureC (parseAlbumPage html albumUrl
                                    (default_arg options (JObj ∅)));
                   mret (toAlbum album (default_arg options (JObj ∅))))
                (fun album => truthy (album_name album) = true /\
                              Forall song_sound (album_songs album))
                n sched w) as (r & w0 & pages & Hrun & _ & _ & Hok & _).
    { intros html address out entity. unfold pureC, mbind, Con_bind, mret, Con_ret.
      destruct (parseAlbumPage html address _) as [album|e] eqn:Hp; [|discriminate].
      intros [= _ <-]. apply parseAlbumPage_sound in Hp as (Hname & _ & _ & Hsongs).
      simpl. split; [exact Hname|]. eapply Forall_impl; [exact Hsongs|].
      intros s [Hs _]. exact Hs. }
    rewrite Hrun. intros [= -> _]. apply (Hok albums eq_refl).
Qed.

(** [searchSong] looks at the first candidate alone. When the first half
    of the search found candidates and the page of the first one gives a
    song, that song is returned; when that candidate has no page, or the
    fetch or the parse of its page fails, the caller catches
    [BANDCAMP_PLUGIN_NO_RESULT] from [searchSong] itself, and at most two
    requests have been sent. When the first half of the search throws, as
    it does when the response holds no track, the caller catches the
    [BANDCAMP_PLUGIN_SEARCH_ERROR] wrapper of [searchSongs] with the
    message of the error thrown, not [BANDCAMP_PLUGIN_NO_RESULT]; one
    request has been sent. *)
Theorem searchSong_first (q : string) (options : jsval) (sched : list nat)
    (w w1 : World) :
  (forall results,
     autocomplete net q "t" "tracks" w = (Ok results, w1) ->
     let options' := default_arg options (JObj ∅) in
     let outcome :=
       head (candidateOutcomes net
               (fun html trackUrl => parseTrackPage html trackUrl options')
               (length (requests w1)) (take 1 results)) in
     exists w2,
       searchSong net (JStr q) options sched w
       = (match outcome with
          | Some (Some song) => Ok song
          | _ => Throw (DisTuneError "BANDCAMP_PLUGIN_NO_RESULT"
                          [JStr ("Cannot find " +:+ dquote +:+ q +:+ dquote
                                 +:+ " on Bandcamp!")])
          end, w2) /\
       length (requests w2) <= length (requests w) + 2) /\
  (forall inner,
     autocomplete net q "t" "tracks" w = (Throw inner, w1) ->
     searchSong net (JStr q) options sched w
     = (Throw (DisTuneError "BANDCAMP_PLUGIN_SEARCH_ERROR" [JStr (message inner)]), w1) /\
     requests w1 = requests w ++ [SearchRequest q "t"]) /\
  (forall response data auto,
     net (length (requests w)) (SearchRequest q "t") = Fulfilled response ->
     JSON_parse (resp_body response) = Some data ->
     getProp data "auto" = Ok auto ->
     no_candidates "t" auto ->
     searchSong net (JStr q) options sched w
     = (Throw (DisTuneError "BANDCAMP_PLUGIN_SEARCH_ERROR"
                 [JStr (message (NO_RESULT q "tracks"))]),
        {| requests := requests w ++ [SearchRequest q "t"]; console := console w |})).
Proof.
  assert (Hthrow : forall inner w0,
    autocomplete net q "t" "tracks" w = (Throw inner, w0) ->
    searchSong net (JStr q) options sched w
    = (Throw (DisTuneError "BANDCAMP_PLUGIN_SEARCH_ERROR" [JStr (message inner)]), w0)).
  { intros inner w0 Hinner. unfold searchSong. rewrite bind_M. unfold searchSongs.
    change (default_arg (of_int 1) (of_int 10)) with (of_int 1).
    change (invalid_limit (of_int 1)) with false. cbv iota.
    rewrite (search_body_throw net q "t" "tracks" _ _ _ sched w w0 inner Hinner).
    reflexivity. }
  split; [|split].
  - intros results Hauto options' outcome.
    destruct (search_body_run net q "t" "tracks" "Error fetching track:"
                (fun html trackUrl => parseTrackPage html trackUrl options') (of_int 1)
                sched
                (fun error => throw (DisTuneError "BANDCAMP_PLUGIN_SEARCH_ERROR"
                                       [JStr (message error)]))
                w w1 results Hauto) as (out & Hrun & _).
    change (slice_limit (of_int 1) results) with (take 1 results) in Hrun.
    fold outcome in Hrun.
    assert (Hpages : length (omap pageUrlOf (take 1 results)) <= 1).
    { etransitivity; [apply omap_length_le|]. rewrite length_take. lia. }
    apply autocomplete_world in Hauto.
    exists {| requests := requests w1 ++ map PageRequest (omap pageUrlOf (take 1 results));
              console := console w ++ out |}.
    split.
    + unfold searchSong. rewrite bind_M. unfold searchSongs.
      change (default_arg (of_int 1) (of_int 10)) with (of_int 1).
      change (invalid_limit (of_int 1)) with false. cbv iota.
      fold options'. rewrite Hrun.
      unfold outcome. destruct (take 1 results) as [|c [|c' rest]] eqn:Htake.
      * reflexivity.
      * cbn [candidateOutcomes]. destruct (pageUrlOf c); [|reflexivity].
        destruct (fetched _ _ _).2; reflexivity.
      * exfalso. assert (length (take 1 results) <= 1) by (rewrite length_take; lia).
        rewrite Htake in *. simpl in *. lia.
    + simpl. rewrite Hauto. simpl. rewrite !length_app, length_map. simpl. lia.
  - intros inner Hinner. split; [apply Hthrow, Hinner|].
    apply autocomplete_world in Hinner. rewrite Hinner. reflexivity.
  - intros response data auto Hnet Hjson Hauto Hnone.
    apply Hthrow. apply (autocomplete_no_candidates net q "t" "tracks" w response data auto);
      assumption.
Qed.
End SearchTheorems.

Lemma search_requests_bounded_witness :
  exists r w' pages,
    searchSongs (H := Sample.runtime) Sample.net (JStr "one") JUndefined JUndefined
      [2; 0; 1] Sample.empty_world = (r, w') /\
    requests w' = requests Sample.empty_world
                  ++ SearchRequest "one" "t" :: map PageRequest pages /\
    length pages <= 10 /\
    (forall songs, r = Ok songs -> length songs <= length pages).
Proof.
  apply (proj1 (search_requests_bounded (H := Sample.runtime) Sample.net "one"
                  JUndefined JUndefined (Finite (inject_Z 10)) [2; 0; 1]
                  Sample.empty_world eq_refl eq_refl)).
Defined.

Lemma search_failures_wrapped_witness :
  searchSongs (H := Sample.runtime) Sample.net (JStr "nothing") JUndefined JUndefined []
    Sample.empty_world
  = (Throw (DisTuneError "BANDCAMP_PLUGIN_SEARCH_ERROR"
              [JStr (message (H := Sample.runtime) (NO_RESULT "nothing" "tracks"))]),
     mkWorld [SearchRequest "nothing" "t"] []).
Proof.
  apply (proj2 (proj1 (search_failures_wrapped (H := Sample.runtime) Sample.net "nothing"
                         JUndefined JUndefined (Finite (inject_Z 10)) [] Sample.empty_world
                         (mkWorld [SearchRequest "nothing" "t"] [])
                         (DisTuneError "BANDCAMP_PLUGIN_SEARCH_ERROR"
                            [JStr (message (H := Sample.runtime)
                                     (NO_RESULT "nothing" "tracks"))])
                         eq_refl eq_refl))).
  exists (NO_RESULT "nothing" "tracks"). split; [vm_compute; reflexivity | reflexivity].
Defined.

Lemma search_results_sound_witness :
  exists songs w',
    searchSongs (H := Sample.runtime) Sample.net (JStr "one") JUndefined JUndefined
      [2; 0; 1] Sample.empty_world = (Ok songs, w') /\
    Forall song_sound songs.
Proof.
  destruct (searchSongs (H := Sample.runtime) Sample.net (JStr "one") JUndefined JUndefined
              [2; 0; 1] Sample.empty_world) as [[songs|e] w'] eqn:Hrun;
    [|vm_compute in Hrun; discriminate Hrun].
  exists songs, w'. split; [reflexivity|].
  exact (proj1 (search_results_sound (H := Sample.runtime) Sample.net (JStr "one")
                  JUndefined JUndefined [2; 0; 1] Sample.empty_world w') songs Hrun).
Defined.

Lemma searchSong_first_witness :
  (exists r w2,
     searchSong (H := Sample.runtime) Sample.net (JStr "one") JUndefined []
       Sample.empty_world = (r, w2) /\
     match r with
     | Ok song => song_name song = JStr "One"
     | Throw _ => False
     end /\
     length (requests w2) <= 2) /\
  searchSong (H := Sample.runtime) Sample.net (JStr "nothing") JUndefined []
    Sample.empty_world
  = (Throw (DisTuneError "BANDCAMP_PLUGIN_SEARCH_ERROR"
              [JStr (message (H := Sample.runtime) (NO_RESULT "nothing" "tracks"))]),
     mkWorld [SearchRequest "nothing" "t"] []).
Proof.
  split.
  - destruct (proj1 (searchSong_first (H := Sample.runtime) Sample.net "one" JUndefined []
                       Sample.empty_world (mkWorld [SearchRequest "one" "t"] []))
                (take 3 Sample.track_candidates)) as (w2 & Hrun & Hlen).
    + vm_compute. reflexivity.
    + eexists _, w2. split; [exact Hrun|]. split; [vm_compute; reflexivity | exact Hlen].
  - apply (proj1 (proj2 (searchSong_first (H := Sample.runtime) Sample.net "nothing"
                           JUndefined [] Sample.empty_world
                           (mkWorld [SearchRequest "nothing" "t"] [])))
             (NO_RESULT "nothing" "tracks")).
    vm_compute. reflexivity.
Defined.

(** ** Related tracks: what the lookup does and leaves behind *)

Section RelatedAccount.
Context `{Platform} (net : Network).



End RelatedAccount.


(** ** [resolve]: what a success means and how each failure is reported *)

Section ResolveAccount.
Context `{Platform} (net : Network).

Lemma resolve_run (s : string) (options : jsval) (w : World) :
  validate (JStr s) = true ->
  resolve net (JStr s) options w
  = let w1 := {| requests := requests w ++ [PageRequest (JStr s)]; console := console w |} in
    let wrap e := DisTuneError "BANDCAMP_PLUGIN_RESOLVE_ERROR" [JStr (message e)] in
    match page_text (net (length (requests w)) (PageRequest (JStr s))) with
    | Throw e => (Throw (wrap e), w1)
    | Ok html =>
        if includes s "/track/" then
          match parseTrackPage html (JStr s) (default_arg options (JObj ∅)) with
          | (out, Ok song) =>
              (Ok (ResolvedSong song),
               {| requests := requests w1; console := console w1 ++ out |})
          | (out, Throw e) =>
              (Throw (wrap e), {| requests := requests w1; console := console w1 ++ out |})
          end
        else if includes s "/album/" then
          match parseAlbumPage html (JStr s) (default_arg options (JObj ∅)) with
          | Ok album => (Ok (ResolvedAlbum album), w1)
          | Throw e => (Throw (wrap e), w1)
          end
        else
          (Throw (wrap (DisTuneError "BANDCAMP_PLUGIN_INVALID_URL"
                          [JStr "URL must be a track or album"])), w1)
    end.
Proof.
  intros Hv. unfold resolve. rewrite Hv. simpl.
  unfold try_catch, fetchPage, mbind, M_bind, send, liftR, liftC, throw, liftR, mret, M_ret.
  destruct (page_text _) as [html|e]; simpl; [|reflexivity].
  destruct (includes s "/track/").
  - destruct (parseTrackPage html (JStr s) _) as [out [song|e]]; reflexivity.
  - destruct (includes s "/album/"); [|reflexivity].
    destruct (parseAlbumPage html (JStr s) _) as [album|e]; reflexivity.
Qed.

(** When [resolve] returns, the URL had passed [validate], one request was
    sent, for the page at the URL, and nothing was written to the console.
    What comes back is chosen by the text of the URL, with [/track/] tried
    first: a song when the URL contains [/track/], an album when it
    contains [/album/] and no [/track/]. The entity carries the URL, a song
    is sound, and every song of an album is sound. *)
Theorem resolve_success (url options : jsval) (entity : Resolved) (w w' : World) :
  resolve net url options w = (Ok entity, w') ->
  validate url = true /\
  requests w' = requests w ++ [PageRequest url] /\
  console w' = console w /\
  exists s, url = JStr s /\
    match entity with
    | ResolvedSong song =>
        includes s "/track/" = true /\ song_url song = url /\ song_sound song
    | ResolvedAlbum album =>
        includes s "/track/" = false /\ includes s "/album/" = true /\
        album_url album = url /\ Forall song_sound (album_songs album)
    end.
Proof.
  destruct (validate url) eqn:Hv.
  2:{ unfold resolve. rewrite Hv. discriminate. }
  destruct url as [| |b|n|s|l|o]; try discriminate Hv.
  rewrite (resolve_run s options w Hv). cbv zeta.
  destruct (page_text _) as [html|e]; [|discriminate].
  destruct (includes s "/track/") eqn:Htrack.
  - destruct (parseTrackPage html (JStr s) _) as [out [song|e]] eqn:Hparse; [|discriminate].
    intros [= <- <-]. apply parseTrackPage_sound in Hparse as (-> & Hsound & Hurl).
    simpl. rewrite app_nil_r. repeat split; try reflexivity.
    exists s. repeat split; try assumption; apply Hsound.
  - destruct (includes s "/album/") eqn:Halbum; [|discriminate].
    destruct (parseAlbumPage html (JStr s) _) as [album|e] eqn:Hparse; [|discriminate].
    intros [= <- <-]. apply parseAlbumPage_sound in Hparse as (_ & _ & Hurl & Hsongs).
    simpl. repeat split; try reflexivity.
    exists s. repeat split; try assumption.
    eapply Forall_impl; [exact Hsongs|]. intros song [Hsound _]. exact Hsound.
Qed.

(** After validation, each way the page can fail reaches the caller as
    [BANDCAMP_PLUGIN_RESOLVE_ERROR] with its own message, one request having
    been sent and nothing written: a rejected fetch gives the message of
    the rejection, a response that is not ok gives
    [Failed to fetch page: <status> <statusText>], and a page without the
    [data-tralbum] attribute gives [Could not find track data on page] for
    a track URL and [Could not find album data on page] for an album
    URL. *)
Theorem resolve_page_failures (s : string) (options : jsval) (w : World) :
  validate (JStr s) = true ->
  let o := net (length (requests w)) (PageRequest (JStr s)) in
  let w1 := {| requests := requests w ++ [PageRequest (JStr s)]; console := console w |} in
  let failed m := (Throw (DisTuneError "BANDCAMP_PLUGIN_RESOLVE_ERROR" [JStr m]), w1) in
  (forall e, o = Rejected e -> resolve net (JStr s) options w = failed (message e)) /\
  (forall response, o = Fulfilled response -> resp_ok response = false ->
     resolve net (JStr s) options w
     = failed ("Failed to fetch page: " +:+ toString (of_int (resp_status response))
               +:+ " " +:+ resp_statusText response)) /\
  (forall response, o = Fulfilled response -> resp_ok response = true ->
     includes (resp_body response) tralbum_attr = false ->
     (includes s "/track/" = true ->
      resolve net (JStr s) options w = failed "Could not find track data on page") /\
     (includes s "/track/" = false -> includes s "/album/" = true ->
      resolve net (JStr s) options w = failed "Could not find album data on page")).
Proof.
  intros Hv o w1 failed. rewrite (resolve_run s options w Hv). cbv zeta. fold o. fold w1.
  split; [|split].
  - intros e ->. reflexivity.
  - intros response -> Hok. unfold page_text. simpl. rewrite Hok. reflexivity.
  - intros response -> Hok Habsent. unfold page_text. simpl. rewrite Hok. simpl.
    split.
    + intros ->. unfold parseTrackPage. rewrite (match_attr_absent _ _ Habsent).
      unfold failed, w1. simpl. rewrite app_nil_r. reflexivity.
    + intros -> ->. unfold parseAlbumPage. rewrite (match_attr_absent _ _ Habsent).
      reflexivity.
Qed.
End ResolveAccount.

Lemma resolve_success_witness :
  exists song w',
    resolve (H := Sample.runtime) Sample.net (JStr Sample.track_url) JUndefined
      Sample.empty_world = (Ok (ResolvedSong song), w') /\
    validate (H := Sample.runtime) (JStr Sample.track_url) = true /\
    requests w' = [PageRequest (JStr Sample.track_url)] /\
    console w' = [] /\
    song_url song = JStr Sample.track_url /\ song_sound song.
Proof.
  destruct (resolve (H := Sample.runtime) Sample.net (JStr Sample.track_url) JUndefined
              Sample.empty_world) as [[[song|album]|e] w'] eqn:Hrun;
    [|vm_compute in Hrun; discriminate Hrun..].
  exists song, w'. split; [reflexivity|].
  destruct (resolve_success (H := Sample.runtime) Sample.net _ _ _ _ _ Hrun)
    as (Hv & Hreq & Hcon & s & _ & _ & Hurl & Hsound).
  repeat split; try assumption; apply Hsound.
Defined.

Lemma resolve_page_failures_witness :
  resolve (H := Sample.runtime) Sample.net (JStr Sample.gone_url) JUndefined Sample.empty_world
  = (Throw (DisTuneError "BANDCAMP_PLUGIN_RESOLVE_ERROR"
              [JStr "Failed to fetch page: 404 Not Found"]),
     mkWorld [PageRequest (JStr Sample.gone_url)] []).
Proof.
  destruct (resolve_page_failures (H := Sample.runtime) Sample.net Sample.gone_url JUndefined
              Sample.empty_world eq_refl) as (_ & Hstatus & _).
  exact (Hstatus _ eq_refl eq_refl).
Defined.

(** ** The decoder on its own: fixed points and lengths *)

Lemma prefix_length (p s : string) :
  String.prefix p s = true -> String.length p <= String.length s.
Proof. intros [r ->]%prefix_spec. rewrite length_append_s. lia. Qed.

Lemma replace_from_length (pat rep : string) (k : nat) (s : string) :
  String.length rep <= String.length pat ->
  String.length (replace_from k pat rep s) <= String.length s - k.
Proof.
  intros Hrep. revert k. induction s as [|c s IH]; intros k; [simpl; lia|].
  cbn [replace_from]. destruct k as [|k].
  - destruct (String.prefix pat (String c s)) eqn:Hp.
    + apply prefix_length in Hp. rewrite length_append_s.
      specialize (IH (String.length pat - 1)). cbn [String.length] in *. lia.
    + specialize (IH 0). cbn [String.length]. lia.
  - specialize (IH k). cbn [String.length]. lia.
Qed.

Lemma replaceAll_length (pat rep s : string) :
  String.length rep <= String.length pat ->
  String.length (replaceAll pat rep s) <= String.length s.
Proof. intros Hrep. unfold replaceAll. pose proof (replace_from_length pat rep 0 s Hrep). lia. Qed.

Lemma replaceAll_shorter (pat rep s : string) :
  String.length rep < String.length pat -> includes s pat = true ->
  String.length (replaceAll pat rep s) < String.length s.
Proof.
  intros Hrep. unfold replaceAll. induction s as [|c s IH]; cbn [includes replace_from].
  - rewrite orb_false_r. intros Hp%prefix_length. simpl in Hp. lia.
  - destruct (String.prefix pat (String c s)) eqn:Hp.
    + intros _. apply prefix_length in Hp. rewrite length_append_s.
      pose proof (replace_from_length pat rep (String.length pat - 1) s).
      cbn [String.length] in *. lia.
    + simpl. intros Hs. specialize (IH Hs). cbn [String.length]. lia.
Qed.

Lemma replaceAll_absent (pat rep s : string) :
  includes s pat = false -> replaceAll pat rep s = s.
Proof.
  unfold replaceAll. induction s as [|c s IH]; [reflexivity|].
  cbn [includes replace_from]. rewrite orb_false_iff. intros [-> Hs].
  rewrite (IH Hs). reflexivity.
Qed.

(** The decoder never lengthens a text, and it returns a text unchanged
    exactly when the text contains none of the five entities. *)
Theorem decodeEntities_fixed (s : string) :
  String.length (decodeEntities s) <= String.length s /\
  (decodeEntities s = s <->
   includes s "&quot;" = false /\ includes s "&amp;" = false /\
   includes s "&lt;" = false /\ includes s "&gt;" = false /\
   includes s "&#39;" = false).
Proof.
  unfold decodeEntities.
  set (s1 := replaceAll "&quot;" dquote s).
  set (s2 := replaceAll "&amp;" "&" s1).
  set (s3 := replaceAll "&lt;" "<" s2).
  set (s4 := replaceAll "&gt;" ">" s3).
  set (s5 := replaceAll "&#39;" "'" s4).
  assert (H1 : String.length s1 <= String.length s) by (apply replaceAll_length; simpl; lia).
  assert (H2 : String.length s2 <= String.length s1) by (apply replaceAll_length; simpl; lia).
  assert (H3 : String.length s3 <= String.length s2) by (apply replaceAll_length; simpl; lia).
  assert (H4 : String.length s4 <= String.length s3) by (apply replaceAll_length; simpl; lia).
  assert (H5 : String.length s5 <= String.length s4) by (apply replaceAll_length; simpl; lia).
  split; [lia|]. split.
  - intros Hfixed.
    assert (Hlen : String.length s5 = String.length s) by (rewrite Hfixed; reflexivity).
    destruct (includes s "&quot;") eqn:Hq.
    { pose proof (replaceAll_shorter "&quot;" dquote s) as Hs. fold s1 in Hs.
      simpl in Hs. specialize (Hs ltac:(lia) Hq). lia. }
    assert (E1 : s1 = s) by (apply replaceAll_absent; exact Hq).
    destruct (includes s "&amp;") eqn:Ha.
    { assert (Hin : includes s1 "&amp;" = true) by (rewrite E1; exact Ha).
      pose proof (replaceAll_shorter "&amp;" "&" s1 ltac:(simpl; lia) Hin) as Hs.
      fold s2 in Hs. lia. }
    assert (E2 : s2 = s) by (unfold s2; rewrite E1; apply replaceAll_absent; exact Ha).
    destruct (includes s "&lt;") eqn:Hl.
    { assert (Hin : includes s2 "&lt;" = true) by (rewrite E2; exact Hl).
      pose proof (replaceAll_shorter "&lt;" "<" s2 ltac:(simpl; lia) Hin) as Hs.
      fold s3 in Hs. lia. }
    assert (E3 : s3 = s) by (unfold s3; rewrite E2; apply replaceAll_absent; exact Hl).
    destruct (includes s "&gt;") eqn:Hg.
    { assert (Hin : includes s3 "&gt;" = true) by (rewrite E3; exact Hg).
      pose proof (replaceAll_shorter "&gt;" ">" s3 ltac:(simpl; lia) Hin) as Hs.
      fold s4 in Hs. lia. }
    assert (E4 : s4 = s) by (unfold s4; rewrite E3; apply replaceAll_absent; exact Hg).
    destruct (includes s "&#39;") eqn:Hp.
    { assert (Hin : includes s4 "&#39;" = true) by (rewrite E4; exact Hp).
      pose proof (replaceAll_shorter "&#39;" "'" s4 ltac:(simpl; lia) Hin) as Hs.
      fold s5 in Hs. lia. }
    repeat split.
  - intros (Hq & Ha & Hl & Hg & Hp). unfold s5, s4, s3, s2, s1.
    rewrite (replaceAll_absent _ _ _ Hq), (replaceAll_absent _ _ _ Ha),
      (replaceAll_absent _ _ _ Hl), (replaceAll_absent _ _ _ Hg).
    apply replaceAll_absent, Hp.
Qed.

(** ** The decoder after the encoder *)

Lemma plain_neq (a d : ascii) : plain a = true -> plain d = false -> a <> d.
Proof. intros Ha Hd ->. congruence. Qed.

Lemma enc_after_plain (k : nat) (c : ascii) :
  plain c = true -> enc_after k c = String c EmptyString.
Proof.
  unfold plain, enc_after. rewrite negb_true_iff, !orb_false_iff.
  intros ((((-> & ->) & ->) & ->) & ->). reflexivity.
Qed.

Lemma enc_after_special (k : nat) (c : ascii) :
  plain c = false -> exists d r, enc_after k c = String d r /\ plain d = false.
Proof.
  unfold enc_after. intros Hc.
  repeat match goal with
         | |- context [Ascii.eqb c ?d] => destruct (Ascii.eqb_spec c d) as [->|?]
         end;
    repeat match goal with
           | |- context [Nat.ltb ?a ?b] => destruct (Nat.ltb a b)
           end;
    try (eexists _, _; split; reflexivity).
  unfold plain in Hc. rewrite negb_false_iff, !orb_true_iff in Hc.
  rewrite !Ascii.eqb_eq in Hc. tauto.
Qed.

(** The encoding, at any stage of the decoding, begins with a plain text
    exactly when the text encoded does. *)
Lemma prefix_plain (k : nat) (p x : string) :
  all_plain p = true ->
  String.prefix p (encode_after k x) = String.prefix p x.
Proof.
  revert x. induction p as [|a p IH]; intros x Hp.
  - destruct x, (encode_after k _); reflexivity.
  - cbn [all_plain] in Hp. apply andb_true_iff in Hp as [Ha Hp].
    destruct x as [|c x]; [reflexivity|]. cbn [encode_after].
    destruct (plain c) eqn:Hc.
    + rewrite (enc_after_plain k c Hc). cbn [String.append String.prefix].
      destruct (ascii_dec a c); [apply IH, Hp | reflexivity].
    + destruct (enc_after_special k c Hc) as (d & r & -> & Hd).
      cbn [String.append]. rewrite !prefix_other; [reflexivity | |].
      * intros ->. congruence.
      * intros ->. congruence.
Qed.

Lemma prefix_amp_encoded (k : nat) (p x : string) :
  all_plain p = true ->
  String.prefix (String "&" p) (String "&" x) = false ->
  String.prefix (String "&" p) (String "&" (encode_after k x)) = false.
Proof.
  intros Hp. cbn [String.prefix]. destruct (ascii_dec "&" "&"); [|congruence].
  rewrite (prefix_plain k p x Hp). trivial.
Qed.

Lemma includes_cons_false (c : ascii) (s sub : string) :
  includes (String c s) sub = false ->
  String.prefix sub (String c s) = false /\ includes s sub = false.
Proof. cbn [includes]. apply orb_false_iff. Qed.

Ltac decode_cases c x IH :=
  cbn [encode_after]; unfold enc_after; cbn [Nat.ltb Nat.leb];
  repeat match goal with
         | |- context [Ascii.eqb c ?d] =>
             destruct (Ascii.eqb_spec c d) as [->|?]
         end;
  try (rewrite replaceAll_match, IH; reflexivity);
  try (pass_entity; rewrite IH; reflexivity);
  try (cbn [String.append];
       rewrite replaceAll_skip by (apply prefix_amp_encoded; [reflexivity | assumption]);
       rewrite IH; reflexivity);
  try (cbn [String.append]; rewrite replaceAll_skip by (apply prefix_other; assumption);
       rewrite IH; reflexivity).

Lemma stage_quot_any (x : string) :
  replaceAll "&quot;" dquote (encode_after 0 x) = encode_after 1 x.
Proof. induction x as [|c x IH]; [reflexivity|]. decode_cases c x IH. Qed.

Lemma stage_amp_any (x : string) :
  replaceAll "&amp;" "&" (encode_after 1 x) = encode_after 2 x.
Proof. induction x as [|c x IH]; [reflexivity|]. decode_cases c x IH. Qed.

Lemma stage_lt_clear (x : string) :
  includes x "&lt;" = false ->
  replaceAll "&lt;" "<" (encode_after 2 x) = encode_after 3 x.
Proof.
  induction x as [|c x IH]; [reflexivity|].
  intros [Hp Hx]%includes_cons_false. specialize (IH Hx). decode_cases c x IH.
Qed.

Lemma stage_gt_clear (x : string) :
  includes x "&gt;" = false ->
  replaceAll "&gt;" ">" (encode_after 3 x) = encode_after 4 x.
Proof.
  induction x as [|c x IH]; [reflexivity|].
  intros [Hp Hx]%includes_cons_false. specialize (IH Hx). decode_cases c x IH.
Qed.

Lemma stage_apos_clear (x : string) :
  includes x "&#39;" = false ->
  replaceAll "&#39;" "'" (encode_after 4 x) = encode_after 5 x.
Proof.
  induction x as [|c x IH]; [reflexivity|].
  intros [Hp Hx]%includes_cons_false. specialize (IH Hx). decode_cases c x IH.
Qed.

(** Decoding undoes the encoding of every text that contains none of
    [&lt;], [&gt;] and [&#39;]: ampersands, and the letters of [&quot;]
    and [&amp;], come back as they were. *)
Theorem decodeEntities_htmlEncode_clear (x : string) :
  includes x "&lt;" = false -> includes x "&gt;" = false -> includes x "&#39;" = false ->
  decodeEntities (htmlEncode x) = x.
Proof.
  intros Hl Hg Hp. unfold decodeEntities.
  rewrite <- encode_after_0, stage_quot_any, stage_amp_any, stage_lt_clear, stage_gt_clear,
    stage_apos_clear by assumption.
  apply encode_after_5.
Qed.

Lemma decodeEntities_htmlEncode_clear_witness :
  decodeEntities (htmlEncode "{'a':'R&B &amp; <soul> &quot;'}")
  = "{'a':'R&B &amp; <soul> &quot;'}".
Proof. apply decodeEntities_htmlEncode_clear; reflexivity. Defined.
